(** * infer_taxonomy: a shallow embedding of humann2/tools/infer_taxonomy.py

    The tool relabels the "unclassified" stratum of a HUMAnN2 table with a
    taxon inferred from the lowest common ancestor (LCA) of each UniRef
    cluster.  The development follows the file top to bottom: constants,
    the [Taxon] and [TreeOfLife] helper objects, [build_taxmap],
    [tax_connect], and the four blocks of [main] (refine the map, reindex
    the table, rebuild the table, report on performance).

    Python dictionaries are finite maps ([gmap]), sets are [gset],
    exceptions are an explicit result type, the [while] loop of
    [get_lineage] runs on fuel. *)

From Stdlib Require Import QArith Qround Ascii.
From stdpp Require Import base option list strings gmap sets fin_maps fin_sets sorting.

Local Open Scope string_scope.
Local Open Scope list_scope.
Local Open Scope nat_scope.

(* ================================================================= *)
(** ** Exceptions *)

(** The exceptions the script can raise on its own data, plus [NoReturn]
    for a run whose [while] loop never leaves (not a Python exception). *)
Inductive exn : Type :=
  | ZeroDivisionError
  | KeyError
  | IndexError
  | ValueError
  | NoReturn.

Inductive result (A : Type) : Type :=
  | Ok (a : A)
  | Raise (e : exn).
Arguments Ok {A} a.
Arguments Raise {A} e.

Definition rbind {A B} (r : result A) (k : A → result B) : result B :=
  match r with
  | Ok a => k a
  | Raise e => Raise e
  end.

Notation "x ←! r ; k" := (rbind r (λ x, k))
  (at level 20, r at level 100, k at level 200, right associativity,
   format "x  ←!  r ;  '/' k").
Notation "' p ←! r ; k" := (rbind r (λ x, match x with p => k end))
  (at level 20, p pattern, r at level 100, k at level 200,
   right associativity).

(** [d[k]] on a dict: [KeyError] when the key is missing. *)
Definition getitem {V} (d : gmap string V) (k : string) : result V :=
  match d !! k with
  | Some v => Ok v
  | None => Raise KeyError
  end.

(** [l[i]] on a list: [IndexError] when out of range. *)
Definition list_getitem {A} (l : list A) (i : nat) : result A :=
  match l !! i with
  | Some x => Ok x
  | None => Raise IndexError
  end.

(** [[f(x) for x in l]] with a body that may raise. *)
Fixpoint mapM {A B} (f : A → result B) (l : list A) : result (list B) :=
  match l with
  | [] => Ok []
  | x :: l' => y ←! f x; ys ←! mapM f l'; Ok (y :: ys)
  end.

(** [for x in l: acc = f(acc, x)] with a body that may raise. *)
Fixpoint foldM {A B} (f : B → A → result B) (acc : B) (l : list A)
  : result B :=
  match l with
  | [] => Ok acc
  | x :: l' => acc' ←! f acc x; foldM f acc' l'
  end.

(* ================================================================= *)
(** ** String primitives used by the script *)

(** [s.split(sep)[0]] for a non-empty [sep]: the text before the first
    occurrence of [sep] (all of [s] when [sep] does not occur). *)
Fixpoint split_head (sep s : string) : string :=
  if String.prefix sep s then ""
  else match s with
       | EmptyString => ""
       | String c s' => String c (split_head sep s')
       end.

(** [sub in s]. *)
Fixpoint contains (sub s : string) : bool :=
  String.prefix sub s ||
  match s with
  | EmptyString => false
  | String _ s' => contains sub s'
  end.

(** [s.replace(sub, "")]: left-to-right removal of the non-overlapping
    occurrences of [sub]; [skip] counts the characters of the occurrence
    being dropped. *)
Fixpoint remove_go (sub : string) (skip : nat) (s : string) : string :=
  match s with
  | EmptyString => ""
  | String c s' =>
      match skip with
      | S k => remove_go sub k s'
      | O => if String.prefix sub s
             then remove_go sub (String.length sub - 1) s'
             else String c (remove_go sub 0 s')
      end
  end.

Definition str_remove (sub s : string) : string := remove_go sub 0 s.

Definition ascii_lower (c : Ascii.ascii) : Ascii.ascii :=
  let n := Ascii.nat_of_ascii c in
  if (65 <=? n) && (n <=? 90) then Ascii.ascii_of_nat (n + 32) else c.

(** [rank.lower()[0]]: [IndexError] on the empty string. *)
Definition lower_initial (rank : string) : result string :=
  match rank with
  | EmptyString => Raise IndexError
  | String c _ => Ok (String (ascii_lower c) "")
  end.

(* ================================================================= *)
(** ** constants *)

Definition c_root : string := "Root".
Definition c_levels : list string :=
  [c_root; "Kingdom"; "Phylum"; "Class"; "Order"; "Family"; "Genus"].
Definition c_tmode : string := "totals".
Definition c_umode : string := "unclassified".
Definition c_smode : string := "stratified".
Definition c_tol_header : string := "# TOL".
Definition c_lca_header : string := "# LCA".
Definition c_unclassified : string := "unclassified".

(* ================================================================= *)
(** ** helper objects *)

Record Taxon : Type := mkTaxon {
  name : string;
  rank : string;
  parent_name : option string;
}.

Record TreeOfLife : Type := mkTreeOfLife {
  nodes : gmap string Taxon;
  root : Taxon;
}.

(** [TreeOfLife.__init__] *)
Definition TreeOfLife_init : TreeOfLife :=
  let r := mkTaxon c_root c_root None in
  mkTreeOfLife (<[name r := r]> ∅) r.

(** [TreeOfLife.attach]; the warning printed on a duplicate is not
    modelled. *)
Definition attach (self : TreeOfLife) (node : Taxon) : TreeOfLife :=
  match nodes self !! name node with
  | None => mkTreeOfLife (<[name node := node]> (nodes self)) (root self)
  | Some _ => self
  end.

(** The [while] loop of [TreeOfLife.get_lineage].  The loop variable is an
    [option string]: it becomes [None] after the root's parent, and
    [None in self.nodes] is false.  [None] as a result means the fuel ran
    out. *)
Fixpoint lineage_loop (fuel : nat) (self : TreeOfLife) (nm : option string)
    (lineage : list (string * string)) : option (list (string * string)) :=
  match fuel with
  | O => None
  | S fuel' =>
      match nm with
      | Some n =>
          match nodes self !! n with
          | Some node =>
              if bool_decide (n ≠ name (root self))
              then lineage_loop fuel' self (parent_name node)
                     (lineage ++ [(rank node, name node)])
              else Some (lineage ++ [(rank (root self), name (root self))])
          | None => Some (lineage ++ [(rank (root self), name (root self))])
          end
      | None => Some (lineage ++ [(rank (root self), name (root self))])
      end
  end.

(** [TreeOfLife.get_lineage].  Every test of the loop condition that lets
    the loop go on is at a distinct key of [self.nodes] unless the walk is
    caught in a cycle, so one more test than there are nodes loses no
    run that returns ([get_lineage_complete] below). *)
Definition get_lineage (self : TreeOfLife) (n : string)
  : option (list (string * string)) :=
  lineage_loop (S (size (nodes self))) self (Some n) [].

(* ================================================================= *)
(** ** The imported module [util]

    [util.py] is not among the sources at hand; the names the script
    imports from it are the fields of this interface.  [fsplit] parses a
    row key into (feature, name, stratum), [fjoin] builds a row key from
    the three parts, [fsort] orders the keys of a dict. *)

Class Util : Type := mkUtil {
  c_strat_delim : string;
  c_name_delim : string;
  c_taxon_delim : string;
  c_unmapped : string;
  fsplit : string → string * option string * option string;
  fjoin : string → option string → option string → string;
  fsort : list string → list string;
}.

(** Python numbers: [cell] is whatever [util.Table] keeps in [tbl.data],
    [float] the floating-point numbers.  Counters are [nat]. *)
Class Numbers : Type := mkNumbers {
  cell : Type;
  float : Type;
  to_float : cell → float;          (* float(x) of a table cell *)
  of_nat : nat → float;             (* float(n) of an int, also implicit *)
  fadd : float → float → float;
  fdiv : float → float → float;     (* quotient by a non-zero divisor *)
  fge : float → float → bool;
  fis_zero : float → bool;
  round1 : float → float;           (* round(x, 1) *)
}.

(** [a / b] with a float divisor. *)
Definition truediv `{Numbers} (a b : float) : result float :=
  if fis_zero b then Raise ZeroDivisionError else Ok (fdiv a b).

(** What the script uses of a [util.Table]: row keys, column keys and the
    rows of cells. *)
Record Table (A : Type) : Type := mkTable {
  rowheads : list string;
  colheads : list string;
  data : list (list A);
}.
Arguments mkTable {A} _ _ _.
Arguments rowheads {A} _.
Arguments colheads {A} _.
Arguments data {A} _.

(* ================================================================= *)
(** ** utilities *)

(** The body shared by the two [for rank, name in tol.get_lineage(..)]
    loops: the first pair at the target rank sets [taxmap[key]], then
    [break]. *)
Fixpoint assign_rank (target_rank key : string)
    (lineage : list (string * string)) (taxmap : gmap string string)
  : result (gmap string string) :=
  match lineage with
  | [] => Ok taxmap
  | (rk, nm) :: rest =>
      if bool_decide (rk = target_rank)
      then c ←! lower_initial rk; Ok (<[key := c +:+ "__" +:+ nm]> taxmap)
      else assign_rank target_rank key rest taxmap
  end.

(** The three set comprehensions at the top of [build_taxmap]. *)
Definition unirefs_of `{Util} (features : list string) : gset string :=
  let u1 : gset string := list_to_set (split_head c_strat_delim <$> features) in
  let u2 : gset string := set_map (split_head c_name_delim) u1 in
  filter (λ k, contains "UniRef" k = true) u2.

(** The variables [build_taxmap] updates while it reads the data file. *)
Record loader : Type := mkLoader {
  tol : TreeOfLife;
  ld_taxmap : gmap string string;
  tol_mode : bool;
  lca_mode : bool;
}.

(** One iteration of [for row in csv.reader( fh, csv.excel_tab )]. *)
Definition load_row (unirefs : gset string) (target_rank : string)
    (st : loader) (row : list string) : result loader :=
  h ←! list_getitem row 0;
  if bool_decide (h = c_tol_header) then
    Ok (mkLoader (tol st) (ld_taxmap st) true (lca_mode st))
  else if bool_decide (h = c_lca_header) then
    Ok (mkLoader (tol st) (ld_taxmap st) false true)
  else if tol_mode st then
    match row with
    | [nm; rk; parent] =>
        Ok (mkLoader (attach (tol st) (mkTaxon nm rk (Some parent)))
              (ld_taxmap st) (tol_mode st) (lca_mode st))
    | _ => Raise ValueError
    end
  else if lca_mode st then
    match row with
    | [uni; lca] =>
        if bool_decide (uni ∈ unirefs) then
          match get_lineage (tol st) lca with
          | None => Raise NoReturn
          | Some lineage =>
              taxmap ←! assign_rank target_rank uni lineage (ld_taxmap st);
              Ok (mkLoader (tol st) taxmap (tol_mode st) (lca_mode st))
          end
        else Ok st
    | _ => Raise ValueError
    end
  else Ok st.

(** One iteration of [for feature in features] (the genus-level
    augmentation). *)
Definition augment_row `{Util} (target_rank : string) (t : TreeOfLife)
    (taxmap : gmap string string) (feature : string)
  : result (gmap string string) :=
  let '(_, _, stratum) := fsplit feature in
  match stratum with
  | Some stratum =>
      if contains "g__" stratum then
        let genus := split_head c_taxon_delim stratum in
        if bool_decide (target_rank = "Genus") then
          Ok (<[stratum := genus]> taxmap)
        else
          let genus := str_remove "g__" genus in
          match get_lineage t genus with
          | None => Raise NoReturn
          | Some lineage => assign_rank target_rank stratum lineage taxmap
          end
      else Ok taxmap
  | None => Ok taxmap
  end.

(** [build_taxmap]; [datafile] is the list of rows [csv.reader] yields for
    the file at [p_datafile]. *)
Definition build_taxmap `{Util} (features : list string)
    (target_rank : string) (datafile : list (list string))
  : result (gmap string string) :=
  let unirefs := unirefs_of features in
  st ←! foldM (load_row unirefs target_rank)
          (mkLoader TreeOfLife_init ∅ false false) datafile;
  foldM (augment_row target_rank (tol st)) (ld_taxmap st) features.

Definition tax_connect `{Util} (feature : string)
    (taxmap : gmap string string) : string :=
  let '(feature, nm, stratum) := fsplit feature in
  let stratum2 :=
    match stratum with
    | None => default c_unclassified (taxmap !! feature)
    | Some s =>
        if bool_decide (s = c_unclassified)
        then default c_unclassified (taxmap !! feature)
        else default c_unclassified (taxmap !! s)
    end in
  fjoin feature nm (Some stratum2).

(* ================================================================= *)
(** ** main *)

(** *** refine the taxmap *)

(** [counts[new] = counts.get( new, 0 ) + 1] *)
Definition count_step (counts : gmap string nat) (item : string * string)
  : gmap string nat :=
  let '(_, new) := item in <[new := default 0 (counts !! new) + 1]> counts.

(** [for old, new in taxmap.items(): ...], from [counts = {}]. *)
Definition count_labels (taxmap : gmap string string) : gmap string nat :=
  foldl count_step ∅ (map_to_list taxmap).

(** [sum( counts.values( ) )] *)
Definition sum_values (counts : gmap string nat) : nat :=
  sum_list (snd <$> map_to_list counts).

(** A list comprehension with a filter that may raise. *)
Fixpoint filterM {A} (p : A → result bool) (l : list A) : result (list A) :=
  match l with
  | [] => Ok []
  | x :: l' =>
      b ←! p x; ys ←! filterM p l'; Ok (if b : bool then x :: ys else ys)
  end.

(** The block "refine the taxmap": the counts of the labels, their total,
    the relative frequencies [count], and the comprehension that keeps the
    entries whose label reaches the threshold. *)
Definition refine_taxmap `{Numbers} (taxmap : gmap string string)
    (threshold : float) : result (gmap string string) :=
  let counts := count_labels taxmap in
  let total := of_nat (sum_values counts) in
  count ←! mapM (λ '(k, v), q ←! truediv (of_nat v) total; Ok (k, q))
             (map_to_list counts);
  let count : gmap string float := list_to_map count in
  kept ←! filterM (λ '(_, new), c ←! getitem count new; Ok (fge c threshold))
            (map_to_list taxmap);
  Ok (list_to_map kept).

(** *** reindex the table *)

(** [index.setdefault( k, [] ).append( i )] *)
Definition setdefault_append (index : gmap string (list nat)) (k : string)
    (i : nat) : gmap string (list nat) :=
  <[k := default [] (index !! k) ++ [i]]> index.

(** The body of [for i, rowhead in enumerate( tbl.rowheads )]. *)
Definition reindex_row `{Util} (mode : string) (taxmap : gmap string string)
    (index : gmap string (list nat)) (i : nat) (rowhead : string)
  : gmap string (list nat) :=
  let '(feature, nm, stratum) := fsplit rowhead in
  let new_rowhead := tax_connect rowhead taxmap in
  let index :=
    if bool_decide (feature = c_unmapped)
    then setdefault_append index rowhead i else index in
  if bool_decide (stratum = None ∧ mode ≠ c_umode) then
    let index := setdefault_append index rowhead i in
    if bool_decide (mode = c_tmode)
    then setdefault_append index new_rowhead i else index
  else if bool_decide (stratum = Some c_unclassified ∧ mode = c_umode) then
    let index := setdefault_append index (fjoin feature nm None) i in
    setdefault_append index new_rowhead i
  else if bool_decide (stratum ≠ None ∧ mode = c_smode) then
    setdefault_append index new_rowhead i
  else index.

(** The loop over [enumerate( tbl.rowheads )]; [i] is the running index. *)
Fixpoint reindex_loop `{Util} (mode : string) (taxmap : gmap string string)
    (index : gmap string (list nat)) (i : nat) (rowheads : list string)
  : gmap string (list nat) :=
  match rowheads with
  | [] => index
  | rowhead :: rest =>
      reindex_loop mode taxmap (reindex_row mode taxmap index i rowhead)
        (S i) rest
  end.

(** The block "reindex the table", from [index = {}]. *)
Definition reindex `{Util} (mode : string) (taxmap : gmap string string)
    (rowheads : list string) : gmap string (list nat) :=
  reindex_loop mode taxmap ∅ 0 rowheads.

(** *** rebuild the table *)

(** The inner loop [for i in index[rowhead]], starting from a row of
    zeros; [zip] cuts the sum at the shorter row. *)
Definition sum_rows `{Numbers} (tbl : Table cell) (idxs : list nat)
  : result (list float) :=
  foldM (λ newrow i,
           oldrow ←! list_getitem (data tbl) i;
           Ok (zip_with fadd newrow (to_float <$> oldrow)))
        ((λ _, of_nat 0) <$> colheads tbl) idxs.

(** The block "rebuild the table": one row for each key of the index, in
    the order of [util.fsort]. *)
Definition rebuild `{Util} `{Numbers} (tbl : Table cell)
    (index : gmap string (list nat)) : result (Table float) :=
  let rowheads2 := fsort (map_to_list index).*1 in
  data2 ←! mapM (λ rowhead, idxs ←! getitem index rowhead; sum_rows tbl idxs)
             rowheads2;
  Ok (mkTable rowheads2 (colheads tbl) data2).

(** *** report on performance *)

(** The values formatted into the summary line. *)
Record Summary `{Numbers} : Type := mkSummary {
  TOTAL : nat;
  SUCCESS : nat;
  TARGET : string;
  PERCENT : float;
}.

(** The body of the counting loop; the pair is [(success, total)]. *)
Definition tally_step `{Util} (acc : nat * nat) (rowhead : string)
  : nat * nat :=
  let '(success, total) := acc in
  let '(_, _, stratum) := fsplit rowhead in
  match stratum with
  | Some s =>
      (if bool_decide (s ≠ c_unclassified) then success + 1 else success,
       total + 1)
  | None => (success, total)
  end.

Definition tally `{Util} (rowheads : list string) : nat * nat :=
  foldl tally_step (0, 0) rowheads.

(** The block "report on performance", on the row keys of the rewritten
    table. *)
Definition report `{Util} `{Numbers} (rowheads : list string)
    (level : string) : result Summary :=
  let '(success, total) := tally rowheads in
  q ←! truediv (of_nat (100 * success)) (of_nat total);
  Ok (mkSummary _ total success level (round1 q)).

(** [main], from the parsed arguments and the contents of the two input
    files.  The table is written before the summary is computed, so the
    result keeps the written table next to the outcome of the report. *)
Definition main `{Util} `{Numbers} (level mode : string) (threshold : float)
    (tbl : Table cell) (datafile : list (list string))
  : result (Table float * result Summary) :=
  taxmap ←! build_taxmap (rowheads tbl) level datafile;
  taxmap ←! refine_taxmap taxmap threshold;
  let index := reindex mode taxmap (rowheads tbl) in
  tbl2 ←! rebuild tbl index;
  Ok (tbl2, report (rowheads tbl2) level).

(* ================================================================= *)
(** ** Specification vocabulary *)

(** *** Trees *)

(** What [__init__] and [attach] maintain: the root taxon is the constant
    one, it is a node, and every node is stored under its own name. *)
Definition wf_tree (t : TreeOfLife) : Prop :=
  root t = mkTaxon c_root c_root None ∧
  nodes t !! c_root = Some (root t) ∧
  ∀ k node, nodes t !! k = Some node → name node = k.

(** [x] is a node other than the root, and its parent link is [y]. *)
Definition parent_of (t : TreeOfLife) (x : string) (y : option string)
  : Prop :=
  ∃ node, nodes t !! x = Some node ∧ x ≠ name (root t) ∧ parent_name node = y.

(** One or more parent links lead from [x] to [y]. *)
Inductive climbs (t : TreeOfLife) : string → string → Prop :=
  | climbs_one x y : parent_of t x (Some y) → climbs t x y
  | climbs_more x y z :
      parent_of t x (Some y) → climbs t y z → climbs t x z.

(** The parent chain of [x] is acyclic: no name on it climbs back to
    itself. *)
Definition acyclic_from (t : TreeOfLife) (x : string) : Prop :=
  ∀ y, y = x ∨ climbs t x y → ¬ climbs t y y.

(** [walk t nm chain]: [chain] lists the nodes met from [nm] along parent
    links, up to (and without) the first name that is absent from the tree
    or is the root. *)
Inductive walk (t : TreeOfLife) : option string → list Taxon → Prop :=
  | walk_none : walk t None []
  | walk_absent n : nodes t !! n = None → walk t (Some n) []
  | walk_root n : n = name (root t) → walk t (Some n) []
  | walk_step n node chain :
      nodes t !! n = Some node →
      n ≠ name (root t) →
      walk t (parent_name node) chain →
      walk t (Some n) (node :: chain).

Definition pair_of (node : Taxon) : string * string := (rank node, name node).

(** *** Tables *)

(** Every data row has one cell per column, and there is one data row per
    row key. *)
Definition rectangular {A} (tbl : Table A) : Prop :=
  length (data tbl) = length (rowheads tbl) ∧
  Forall (λ row, length row = length (colheads tbl)) (data tbl).


(** The three parts of a row key. *)
Definition feature_of `{Util} (k : string) : string := (fsplit k).1.1.
Definition name_of `{Util} (k : string) : option string := (fsplit k).1.2.
Definition stratum_of `{Util} (k : string) : option string := (fsplit k).2.


Definition fsplit_fjoin `{Util} : Prop :=
  ∀ k s,
    feature_of (fjoin (feature_of k) (name_of k) s) = feature_of k ∧
    name_of (fjoin (feature_of k) (name_of k) s) = name_of k ∧
    (stratum_of (fjoin (feature_of k) (name_of k) s) = None ↔ s = None).

(** A row key is canonical when joining its parts gives it back. *)
Definition canonical `{Util} (k : string) : Prop :=
  fjoin (feature_of k) (name_of k) (stratum_of k) = k.

(** *** Numbers *)

(** What the script relies on from Python's numbers: [float(n)] of a count
    is zero only for [n = 0]; adding the float of a cell to the integer [0]
    gives that float (as it does for every float that is a number, up to
    the sign of a zero); and, for counts, dividing by a smaller positive
    total does not bring a quotient below a threshold it had reached
    (division rounds monotonically). *)
Definition of_nat_zero `{Numbers} : Prop :=
  ∀ n, fis_zero (of_nat n) = true ↔ n = 0.


Definition fdiv_antitone `{Numbers} : Prop :=
  ∀ c n m t, 0 < m → m ≤ n →
    fge (fdiv (of_nat c) (of_nat n)) t = true →
    fge (fdiv (of_nat c) (of_nat m)) t = true.

(** *** The refined map *)

(** How many entries of the map carry the label [lab]. *)
Definition label_count (taxmap : gmap string string) (lab : string) : nat :=
  length (filter (λ kv, kv.2 = lab) (map_to_list taxmap)).

(** The entry's label is used by at least the fraction [threshold] of the
    entries. *)
Definition frequent `{Numbers} (taxmap : gmap string string)
    (threshold : float) (kv : string * string) : Prop :=
  fge (fdiv (of_nat (label_count taxmap kv.2)) (of_nat (size taxmap)))
      threshold = true.

#[global] Instance frequent_dec `{Numbers} taxmap threshold kv :
  Decision (frequent taxmap threshold kv).
Proof. unfold frequent. apply _. Defined.

(** *** The summary *)

Definition stratified_rows `{Util} (rowheads : list string) : list string :=
  filter (λ k, stratum_of k ≠ None) rowheads.

Definition resolved_rows `{Util} (rowheads : list string) : list string :=
  filter (λ k, stratum_of k ≠ None ∧ stratum_of k ≠ Some c_unclassified)
    rowheads.

(** *** The built map *)

(** [k] is the stratum of one of the features and contains "g__". *)
Definition genus_stratum `{Util} (features : list string) (k : string)
  : Prop :=
  ∃ feature, feature ∈ features ∧ stratum_of feature = Some k ∧
             contains "g__" k = true.

(** The first pair of a lineage at the target rank: lineages run from the
    leaf to the root, so this is the pair closest to the leaf. *)
Fixpoint first_at_rank (target_rank : string)
    (lineage : list (string * string)) : option (string * string) :=
  match lineage with
  | [] => None
  | (rk, nm) :: rest =>
      if bool_decide (rk = target_rank) then Some (rk, nm)
      else first_at_rank target_rank rest
  end.

(** The state in which [build_taxmap] starts to read the data file. *)
Definition loader_init : loader := mkLoader TreeOfLife_init ∅ false false.

(** In state [st] a row that is not a header is read as an LCA row. *)
Definition reads_lca (st : loader) : Prop :=
  tol_mode st = false ∧ lca_mode st = true.

(** *** The index *)

(** The output keys to which the reindexing loop appends the index of a
    row, in the order of the appends. *)
Definition targets `{Util} (mode : string) (taxmap : gmap string string)
    (rowhead : string) : list string :=
  let '(feature, nm, stratum) := fsplit rowhead in
  let new_rowhead := tax_connect rowhead taxmap in
  (if bool_decide (feature = c_unmapped) then [rowhead] else []) ++
  (if bool_decide (stratum = None ∧ mode ≠ c_umode) then
     rowhead :: (if bool_decide (mode = c_tmode) then [new_rowhead] else [])
   else if bool_decide (stratum = Some c_unclassified ∧ mode = c_umode) then
     [fjoin feature nm None; new_rowhead]
   else if bool_decide (stratum ≠ None ∧ mode = c_smode) then [new_rowhead]
   else []).

(** The row indices appended under key [k], in order and with
    repetitions, when the rows are numbered from [i]. *)
Fixpoint sources_from `{Util} (mode : string) (taxmap : gmap string string)
    (k : string) (i : nat) (rowheads : list string) : list nat :=
  match rowheads with
  | [] => []
  | rowhead :: rest =>
      replicate (length (filter (λ x, x = k) (targets mode taxmap rowhead))) i
      ++ sources_from mode taxmap k (S i) rest
  end.

Definition sources `{Util} (mode : string) (taxmap : gmap string string)
    (rowheads : list string) (k : string) : list nat :=
  sources_from mode taxmap k 0 rowheads.

(* ================================================================= *)
(** ** A model of [util] and of the numbers *)

(** [s[n:]] *)
Fixpoint str_drop (n : nat) (s : string) : string :=
  match n, s with
  | S k, String _ s' => str_drop k s'
  | _, _ => s
  end.

(** The text after the first occurrence of [sep], if there is one: the
    items [s.split(sep)[1:]] joined back. *)
Fixpoint split_tail (sep s : string) : option string :=
  if String.prefix sep s then Some (str_drop (String.length sep) s)
  else match s with
       | EmptyString => None
       | String _ s' => split_tail sep s'
       end.

(** [s.split(sep)[1]] when [s.split(sep)] has more than one item. *)
Definition split_second (sep s : string) : option string :=
  split_head sep <$> split_tail sep s.

(** Modelled from the spec: [util.fsplit]; the module [util] ([fsplit],
    [fjoin], [fsort] and the constants) is missing from the sources.  The
    spec describes a row key as a base feature id, an optional
    human-readable name and an optional stratum, "joined/split by defined
    delimiters", and shows keys such as [UniRef50_A|g__Genus1]; splitting
    takes off the stratification suffix first, then the name suffix.  The
    model takes ["|"] before the stratum, [": "] before the name, ["."]
    between the parts of a stratum, ["UNMAPPED"] as the unmapped sentinel,
    and sorts keys lexicographically. *)
Definition model_fsplit (k : string)
  : string * option string * option string :=
  let stratum := split_second "|" k in
  let base := split_head "|" k in
  let nm := split_second ": " base in
  (split_head ": " base, nm, stratum).

(** Modelled from the spec: [util.fjoin], missing from the sources; the
    name and the stratum, when given, are appended behind their
    delimiters. *)
Definition model_fjoin (feature : string) (nm stratum : option string)
  : string :=
  let feature :=
    match nm with Some n => feature +:+ ": " +:+ n | None => feature end in
  match stratum with Some s => feature +:+ "|" +:+ s | None => feature end.

(** Modelled from the spec: the order of [util.fsort], missing from the
    sources; the spec calls it lexicographic with domain rules, the model
    compares the keys as strings. *)
Definition key_le (a b : string) : Prop := String.leb a b = true.

#[global] Instance key_le_dec : RelDecision key_le.
Proof. intros a b. unfold key_le. apply _. Defined.

(** Modelled from the spec: [util.fsort], missing from the sources. *)
Definition model_fsort (l : list string) : list string :=
  merge_sort key_le l.

(** Modelled from the spec: the module [util] as a whole, with the
    delimiters and the unmapped sentinel named above. *)
Definition model_util : Util :=
  mkUtil "|" ": " "." "UNMAPPED" model_fsplit model_fjoin model_fsort.

(** Numbers as exact rationals kept in lowest terms, rounding to the
    nearest tenth. *)
Definition Q_round1 (x : Q) : Q :=
  Qred (Qmake (Qfloor (x * 10 + (1 # 2))%Q) 10).

Definition Q_numbers : Numbers :=
  mkNumbers Q Q Qred
    (λ n, inject_Z (Z.of_nat n))
    (λ a b, Qred (a + b)%Q)
    (λ a b, Qred (a / b)%Q)
    (λ a b, Qle_bool b a)
    (λ a, Qeq_bool a 0%Q)
    Q_round1.

(* ================================================================= *)
(** ** A small run *)

(** A data file with a family and a genus below it, and the LCA rows of
    two clusters. *)
Definition ex_datafile : list (list string) :=
  [ ["# TOL"];
    ["FamilyX"; "Family"; "Root"];
    ["Genus1"; "Genus"; "FamilyX"];
    ["# LCA"];
    ["UniRef50_A"; "Genus1"];
    ["UniRef50_C"; "Genus1"] ].

Definition ex_tree : TreeOfLife :=
  attach (attach TreeOfLife_init (mkTaxon "FamilyX" "Family" (Some "Root")))
    (mkTaxon "Genus1" "Genus" (Some "FamilyX")).

Definition ex_table : Table Q :=
  mkTable ["UNMAPPED"; "UniRef50_A"; "UniRef50_A|g__Genus1.s__Species1"]
    ["sample1"] [[1%Q]; [2%Q]; [3%Q]].

Definition ex_table_unclassified : Table Q :=
  mkTable ["UNMAPPED"; "UniRef50_B"; "UniRef50_B|unclassified"]
    ["sample1"] [[1%Q]; [5%Q]; [3%Q]].

Definition ex_table_unmapped : Table Q :=
  mkTable ["UNMAPPED"] ["sample1"] [[5%Q]].

(** The row keys of the table rewritten from [ex_table] in totals mode. *)
Definition ex_rowheads2 : list string :=
  ["UNMAPPED"; "UNMAPPED|unclassified"; "UniRef50_A"; "UniRef50_A|f__FamilyX"].

Definition ex_taxmap : gmap string string :=
  list_to_map [("UniRef50_A", "f__FamilyX");
               ("g__Genus1.s__Species1", "f__FamilyX")].

Definition ex_taxmap_genus : gmap string string :=
  list_to_map [("UniRef50_A", "g__Genus1");
               ("g__Genus1.s__Species1", "g__Genus1")].

Definition ex_taxmap_B : gmap string string :=
  list_to_map [("UniRef50_B", "f__FamilyY")].

(** Three entries labelled with one family, one with another. *)
Definition ex_labels : gmap string string :=
  list_to_map [("UniRef50_A", "f__FamilyX"); ("UniRef50_B", "f__FamilyX");
               ("UniRef50_C", "f__FamilyX"); ("UniRef50_D", "f__FamilyY")].

Definition ex_labels_refined : gmap string string :=
  list_to_map [("UniRef50_A", "f__FamilyX"); ("UniRef50_B", "f__FamilyX");
               ("UniRef50_C", "f__FamilyX")].

(** Further inputs: a tree whose two genera name each other as parent, and
    taxa that define a name twice and try to define the root. *)
Definition ex_cyclic_tree : TreeOfLife :=
  attach (attach TreeOfLife_init (mkTaxon "GenusA" "Genus" (Some "GenusB")))
    (mkTaxon "GenusB" "Genus" (Some "GenusA")).

Definition ex_taxa : list Taxon :=
  [mkTaxon "Genus1" "Genus" (Some "FamilyX");
   mkTaxon "Root" "Kingdom" (Some "Genus1");
   mkTaxon "Genus1" "Family" (Some "Root")].

(** A row of the data file that has a first column and is not one of the
    two headers. *)
Definition data_row (row : list string) : Prop :=
  ∃ h, head row = Some h ∧ h ≠ c_tol_header ∧ h ≠ c_lca_header.

(** The loader after a "# TOL" header, and after the two sections of
    [ex_datafile] up to its LCA rows. *)
Definition ex_loader_tol : loader := mkLoader TreeOfLife_init ∅ true false.

Definition ex_loader_lca : loader := mkLoader ex_tree ∅ false true.

(** The map of [ex_table] after the LCA rows, before the genus-level
    strata are added. *)
Definition ex_taxmap_lca : gmap string string :=
  list_to_map [("UniRef50_A", "f__FamilyX")].

(** The name under which the genus of a stratum is looked up in the tree:
    [stratum.split( util.c_taxon_delim )[0].replace( "g__", "" )]. *)
Definition genus_name `{Util} (stratum : string) : string :=
  str_remove "g__" (split_head c_taxon_delim stratum).

(** Every label of the map is the lower-case initial of the rank, "__" and
    a name. *)
Definition labels_at_rank (target_rank : string)
    (taxmap : gmap string string) : Prop :=
  ∀ k v, taxmap !! k = Some v →
    ∃ c nm, lower_initial target_rank = Ok c ∧ v = c +:+ "__" +:+ nm.

(** The map of [ex_table] at the rank Root. *)
Definition ex_taxmap_root : gmap string string :=
  list_to_map [("UniRef50_A", "r__Root");
               ("g__Genus1.s__Species1", "r__Root")].

(** A table whose data lacks the row of its last key, and one whose second
    row is shorter than the column heads. *)
Definition ex_table_short : Table Q :=
  mkTable ["UniRef50_A"; "UniRef50_B"] ["sample1"] [[1%Q]].

Definition ex_table_ragged : Table Q :=
  mkTable ["UniRef50_A"; "UniRef50_B"] ["sample1"; "sample2"]
    [[1%Q; 2%Q]; [3%Q]].

(* ================================================================= *)
(** * Properties *)

(** ** The tree of life *)

Lemma wf_tree_init : wf_tree TreeOfLife_init.
Proof.
  split; [done|]. split; [apply lookup_insert_eq|].
  intros k node. cbn. intros Hk.
  apply lookup_insert_Some in Hk as [[<- <-]|[_ Hk]]; [done|].
  by rewrite lookup_empty in Hk.
Qed.

Lemma wf_tree_attach t node : wf_tree t → wf_tree (attach t node).
Proof.
  intros (Hr & Hroot & Hname). unfold attach.
  destruct (nodes t !! name node) eqn:Hn; [done|].
  split; [done|]. cbn. split.
  - rewrite lookup_insert_ne; [done|]. intros E. rewrite E in Hn. congruence.
  - intros k nd Hk.
    apply lookup_insert_Some in Hk as [[<- <-]|[_ Hk]]; eauto.
Qed.

(** Every tree the script builds is well formed. *)
Lemma wf_tree_attach_all (taxa : list Taxon) :
  wf_tree (foldl attach TreeOfLife_init taxa).
Proof.
  induction taxa as [|node taxa IH] using rev_ind; [apply wf_tree_init|].
  rewrite foldl_app. cbn. by apply wf_tree_attach.
Qed.

Lemma wf_tree_root_name t : wf_tree t → name (root t) = c_root.
Proof. intros (-> & _). done. Qed.

(** The loop returns the pairs of the walked chain, then the root pair,
    as soon as the fuel exceeds the length of the chain. *)
Lemma lineage_loop_walk t nm chain :
  walk t nm chain →
  ∀ fuel lineage, length chain < fuel →
    lineage_loop fuel t nm lineage
    = Some (lineage ++ (pair_of <$> chain) ++ [pair_of (root t)]).
Proof.
  induction 1 as [|n Hn|n Hn|n node chain Hn Hne Hw IH];
    intros [|fuel] lineage Hlen; cbn in Hlen; try lia; cbn.
  - done.
  - by rewrite Hn.
  - destruct (nodes t !! n); [|done].
    rewrite bool_decide_eq_false_2; [done|]. intros Hc. by apply Hc.
  - rewrite Hn, bool_decide_eq_true_2 by done.
    rewrite IH by lia. by rewrite <- app_assoc.
Qed.

(** Conversely a run that returns has walked a chain shorter than its
    fuel. *)
Lemma lineage_loop_inv t fuel :
  ∀ nm lineage l, lineage_loop fuel t nm lineage = Some l →
    ∃ chain, walk t nm chain ∧ length chain < fuel.
Proof.
  induction fuel as [|fuel IH]; intros nm lineage l; cbn; [done|].
  destruct nm as [n|]; [|intros _; exists []; split; [constructor|cbn; lia]].
  destruct (nodes t !! n) as [node|] eqn:Hn;
    [|intros _; exists []; split; [by constructor|cbn; lia]].
  case_bool_decide as Hne.
  - intros Hl. apply IH in Hl as (chain & Hw & Hlen).
    exists (node :: chain). split; [by constructor|cbn; lia].
  - intros _. exists []. split; [|cbn; lia].
    apply walk_root. by destruct (decide (n = name (root t))).
Qed.

Lemma walk_det t nm c1 :
  walk t nm c1 → ∀ c2, walk t nm c2 → c1 = c2.
Proof.
  induction 1 as [|n Hn|n Hn|n node chain Hn Hne Hw IH];
    inversion 1; subst; try done; try congruence.
  assert (node = node0) as <- by congruence.
  f_equal. by apply IH.
Qed.

Lemma walk_suffix t nm chain :
  wf_tree t → walk t nm chain →
  ∀ c1 node c2, chain = c1 ++ node :: c2 →
    walk t (Some (name node)) (node :: c2).
Proof.
  intros (_ & _ & Hname).
  induction 1 as [|n Hn|n Hn|n node chain Hn Hne Hw IH];
    intros c1 nd c2 E; try by destruct c1.
  destruct c1 as [|x c1]; simplify_eq/=.
  - rewrite (Hname _ _ Hn). by constructor.
  - eapply IH; eauto.
Qed.

Lemma walk_names t nm chain :
  wf_tree t → walk t nm chain →
  Forall (λ node, nodes t !! name node = Some node ∧ name node ≠ c_root) chain.
Proof.
  intros Hwf. pose proof (wf_tree_root_name _ Hwf) as Hr.
  destruct Hwf as (_ & _ & Hname).
  induction 1 as [|n Hn|n Hn|n node chain Hn Hne Hw IH]; try constructor.
  - rewrite (Hname _ _ Hn). split; [done|congruence].
  - done.
Qed.

(** A walk never meets a name twice: from the second meeting on it would
    be a shorter walk from the same name. *)
Lemma walk_NoDup t nm chain :
  wf_tree t → walk t nm chain → NoDup (name <$> chain).
Proof.
  intros Hwf Hw. induction Hw as [|n Hn|n Hn|n node chain Hn Hne Hw IH];
    try (cbn; constructor).
  - intros Hin. apply list_elem_of_fmap in Hin as (nd & Hnd & Hin).
    apply list_elem_of_split in Hin as (c1 & c2 & ->).
    pose proof (walk_suffix _ _ _ Hwf Hw c1 nd c2 eq_refl) as Hw2.
    assert (name node = n) as Hk by (destruct Hwf as (_ & _ & Hname); eauto).
    rewrite <- Hnd, Hk in Hw2.
    pose proof (walk_det _ _ _ (walk_step _ _ _ _ Hn Hne Hw) _ Hw2) as E.
    apply (f_equal length) in E. cbn in E. rewrite length_app in E.
    cbn in E. lia.
  - done.
Qed.

Lemma walk_length t nm chain :
  wf_tree t → walk t nm chain → length chain < size (nodes t).
Proof.
  intros Hwf Hw.
  pose proof (walk_NoDup _ _ _ Hwf Hw) as Hnd.
  pose proof (walk_names _ _ _ Hwf Hw) as Hall.
  assert (NoDup (c_root :: (name <$> chain))) as Hnd'.
  { constructor; [|done]. intros Hin.
    apply list_elem_of_fmap in Hin as (nd & Hnd' & Hin).
    rewrite Forall_forall in Hall. apply Hall in Hin as [_ Hne]. congruence. }
  assert (list_to_set (c_root :: (name <$> chain)) ⊆ dom (nodes t)) as Hsub.
  { intros x Hx. apply elem_of_list_to_set in Hx.
    apply elem_of_dom. apply elem_of_cons in Hx as [->|Hx].
    - destruct Hwf as (_ & Hroot & _). eauto.
    - apply list_elem_of_fmap in Hx as (nd & -> & Hin).
      rewrite Forall_forall in Hall. apply Hall in Hin as [? _]. eauto. }
  apply subseteq_size in Hsub.
  rewrite size_list_to_set, size_dom in Hsub by done.
  cbn in Hsub. rewrite length_fmap in Hsub. lia.
Qed.

Lemma climbs_snoc t x y z :
  climbs t x y → parent_of t y (Some z) → climbs t x z.
Proof.
  induction 1 as [x y Hxy|x y w Hxy Hyw IH]; intros Hz.
  - eapply climbs_more; [done|]. by constructor.
  - eapply climbs_more; [done|]. by apply IH.
Qed.

Lemma acyclic_from_parent t x y :
  acyclic_from t x → parent_of t x (Some y) → acyclic_from t y.
Proof.
  intros Hx Hxy w [->|Hw]; apply Hx; right.
  - by constructor.
  - by eapply climbs_more.
Qed.

(** Along an acyclic chain every name is new, so the names still unseen
    run out before the walk can go on for ever. *)
Lemma walk_exists_aux t :
  ∀ n (seen : gset string) x,
    size (dom (nodes t) ∖ seen) < n →
    (∀ y, y ∈ seen → climbs t y x) →
    acyclic_from t x →
    ∃ chain, walk t (Some x) chain.
Proof.
  induction n as [|n IH]; intros seen x Hsz Hseen Hacy; [lia|].
  destruct (nodes t !! x) as [node|] eqn:Hx;
    [|exists []; by constructor].
  destruct (decide (x = name (root t))) as [Hr|Hr];
    [exists []; by constructor|].
  destruct (parent_name node) as [y|] eqn:Hp.
  - assert (parent_of t x (Some y)) as Hxy by (exists node; done).
    assert (x ∉ seen) as Hnew.
    { intros Hin. apply (Hacy x); [by left|]. by apply Hseen. }
    destruct (IH ({[x]} ∪ seen) y) as [chain Hw].
    + assert (x ∈ dom (nodes t)) as Hd by (apply elem_of_dom; eauto).
      assert (dom (nodes t) ∖ seen
              = {[x]} ∪ dom (nodes t) ∖ ({[x]} ∪ seen)) as E.
      { apply set_eq. intros z. rewrite elem_of_union, !elem_of_difference,
          elem_of_union, elem_of_singleton.
        destruct (decide (z = x)) as [->|]; intuition congruence. }
      rewrite E, size_union, size_singleton in Hsz; [lia|].
      intros z Hz1 Hz2. apply elem_of_singleton in Hz1 as ->.
      apply elem_of_difference in Hz2 as [_ Hz2]. apply Hz2.
      apply elem_of_union. left. by apply elem_of_singleton.
    + intros z Hz. apply elem_of_union in Hz as [Hz|Hz].
      * apply elem_of_singleton in Hz as ->. by constructor.
      * eapply climbs_snoc; eauto.
    + by eapply acyclic_from_parent.
    + exists (node :: chain). constructor; [done..|]. by rewrite Hp.
  - exists [node]. constructor; [done..|]. rewrite Hp. constructor.
Qed.

Lemma walk_exists t x : acyclic_from t x → ∃ chain, walk t (Some x) chain.
Proof.
  intros Hacy.
  apply (walk_exists_aux t (S (size (dom (nodes t) ∖ ∅))) ∅ x);
    [lia| |done].
  intros y Hy. by apply not_elem_of_empty in Hy.
Qed.

(** The fuel of [get_lineage] loses no run: whatever some amount of fuel
    returns, [get_lineage] returns. *)
Lemma get_lineage_complete t n fuel l :
  wf_tree t →
  lineage_loop fuel t (Some n) [] = Some l → get_lineage t n = Some l.
Proof.
  intros Hwf Hl.
  destruct (lineage_loop_inv _ _ _ _ _ Hl) as (chain & Hw & Hlen).
  rewrite (lineage_loop_walk _ _ _ Hw) in Hl by done.
  unfold get_lineage. rewrite (lineage_loop_walk _ _ _ Hw); [done|].
  pose proof (walk_length _ _ _ Hwf Hw). lia.
Qed.

(** A walk from [x] passes every name [x] climbs to. *)
Lemma walk_climbs t x y :
  climbs t x y →
  ∀ chain, walk t (Some x) chain →
    ∃ c', walk t (Some y) c' ∧ length c' < length chain.
Proof.
  induction 1 as [x y (nd & Hx & Hne & Hp)|x y z (nd & Hx & Hne & Hp) Hyz IH];
    intros chain Hw;
    inversion Hw as [| | |x' nd' chain' Hx' Hne' Hw' E1]; simplify_eq.
  - rewrite Hp in Hw'. exists chain'. split; [done|cbn; lia].
  - rewrite Hp in Hw'. destruct (IH _ Hw') as (c' & Hc' & Hlen).
    exists c'. split; [done|cbn; lia].
Qed.

(** A run that returns has met no cycle. *)
Lemma lineage_loop_acyclic t x fuel lineage l :
  lineage_loop fuel t (Some x) lineage = Some l → acyclic_from t x.
Proof.
  intros Hl y Hy Hyy.
  destruct (lineage_loop_inv _ _ _ _ _ Hl) as (chain & Hw & _).
  assert (∃ c, walk t (Some y) c) as [c Hc].
  { destruct Hy as [->|Hy]; [eauto|].
    destruct (walk_climbs _ _ _ Hy _ Hw) as (c & Hc & _). eauto. }
  destruct (walk_climbs _ _ _ Hyy _ Hc) as (c' & Hc' & Hlen).
  rewrite (walk_det _ _ _ Hc _ Hc') in Hlen. lia.
Qed.

(** On a cyclic chain no amount of fuel is enough. *)
Lemma lineage_loop_cyclic t x fuel lineage :
  ¬ acyclic_from t x → lineage_loop fuel t (Some x) lineage = None.
Proof.
  intros Hcyc. destruct (lineage_loop fuel t (Some x) lineage) as [l|] eqn:Hl;
    [|done].
  destruct Hcyc. by eapply lineage_loop_acyclic.
Qed.

(** C4.  For a tree built by [__init__] and [attach] and a name whose
    parent chain is acyclic, [get_lineage] returns.  The lineage is the
    [rank, name] pairs of the walked chain (from the given name along
    parent links, up to the first name that is absent or is the root)
    followed by the root pair; it starts with the node of the given name
    when there is one besides the root, no name occurs twice in it, and
    its last element is the root pair. *)
Theorem get_lineage_acyclic (t : TreeOfLife) (n : string) :
  wf_tree t → acyclic_from t n →
  ∃ chain lineage,
    get_lineage t n = Some lineage ∧
    walk t (Some n) chain ∧
    lineage = (pair_of <$> chain) ++ [(c_root, c_root)] ∧
    (∀ node, nodes t !! n = Some node → n ≠ c_root →
       head lineage = Some (rank node, n)) ∧
    NoDup lineage.*2 ∧
    last lineage = Some (c_root, c_root).
Proof.
  intros Hwf Hacy. destruct (walk_exists _ _ Hacy) as [chain Hw].
  pose proof (wf_tree_root_name _ Hwf) as Hrn.
  assert (pair_of (root t) = (c_root, c_root)) as Hrp.
  { destruct Hwf as (-> & _). done. }
  exists chain, ((pair_of <$> chain) ++ [(c_root, c_root)]).
  split; [|split; [done|split; [done|split; [|split]]]].
  - unfold get_lineage. rewrite (lineage_loop_walk _ _ _ Hw).
    + by rewrite Hrp.
    + pose proof (walk_length _ _ _ Hwf Hw). lia.
  - intros node Hn Hne. inversion Hw; simplify_eq; try congruence.
    cbn. unfold pair_of. do 3 f_equal.
    destruct Hwf as (_ & _ & Hname). eauto.
  - rewrite fmap_app, <- list_fmap_compose. cbn.
    apply NoDup_app. split; [by apply (walk_NoDup _ _ _ Hwf Hw)|].
    split; [|apply NoDup_singleton].
    intros x Hx Hx'. apply list_elem_of_singleton in Hx' as ->.
    apply list_elem_of_fmap in Hx as (nd & Hnd & Hin).
    pose proof (walk_names _ _ _ Hwf Hw) as Hall.
    rewrite Forall_forall in Hall. apply Hall in Hin as [_ Hne].
    cbn in Hnd. congruence.
  - by rewrite last_snoc.
Qed.

(** ** Comprehensions and loops that may raise *)

Lemma mapM_Ok {A B} (f : A → result B) (g : A → B) (l : list A) :
  (∀ x, x ∈ l → f x = Ok (g x)) → mapM f l = Ok (g <$> l).
Proof.
  induction l as [|x l IH]; intros Hf; [done|]. cbn.
  rewrite Hf by left. cbn. rewrite IH; [done|].
  intros y Hy. apply Hf. by right.
Qed.

Lemma filterM_Ok {A} (p : A → result bool) (P : A → Prop)
    `{!∀ x, Decision (P x)} (l : list A) :
  (∀ x, x ∈ l → p x = Ok (bool_decide (P x))) → filterM p l = Ok (filter P l).
Proof.
  induction l as [|x l IH]; intros Hp; [done|]. cbn.
  rewrite Hp by left. cbn. rewrite IH by (intros y Hy; apply Hp; by right).
  cbn. rewrite bool_decide_decide. by destruct (decide (P x)).
Qed.

(** ** Refining the map *)

Section refine.
Context `{Numbers}.

(** After the counting loop a label's counter has grown by the number
    of entries that carry the label. *)
Lemma count_loop_lookup (l : list (string * string)) :
  ∀ (acc : gmap string nat) lab,
    foldl count_step acc l !! lab
    = if decide (length (filter (λ kv, kv.2 = lab) l) = 0)
      then acc !! lab
      else Some (default 0 (acc !! lab)
                 + length (filter (λ kv, kv.2 = lab) l)).
Proof.
  induction l as [|[k new] l IH]; intros acc lab; [done|].
  cbn [foldl]. rewrite IH. rewrite filter_cons. cbn.
  destruct (decide (new = lab)) as [->|Hne].
  - cbn. rewrite lookup_insert_eq. cbn.
    repeat case_decide; try lia; f_equal; lia.
  - rewrite lookup_insert_ne by done. done.
Qed.

Lemma count_labels_lookup (taxmap : gmap string string) lab :
  count_labels taxmap !! lab
  = if decide (label_count taxmap lab = 0) then None
    else Some (label_count taxmap lab).
Proof.
  unfold count_labels. rewrite count_loop_lookup. unfold label_count.
  by rewrite lookup_empty.
Qed.

Lemma sum_values_insert (counts : gmap string nat) lab :
  sum_values (<[lab := default 0 (counts !! lab) + 1]> counts)
  = sum_values counts + 1.
Proof.
  unfold sum_values. destruct (counts !! lab) as [v|] eqn:E; cbn.
  - rewrite <- insert_delete_eq.
    rewrite map_to_list_insert by apply lookup_delete_eq.
    rewrite <- (insert_id counts lab v) at 2 by done.
    rewrite <- insert_delete_eq.
    rewrite (map_to_list_insert (delete lab counts) lab v)
      by apply lookup_delete_eq.
    cbn. lia.
  - rewrite map_to_list_insert by done. cbn. lia.
Qed.

Lemma sum_values_count_loop (l : list (string * string)) :
  ∀ acc : gmap string nat,
    sum_values (foldl count_step acc l) = sum_values acc + length l.
Proof.
  induction l as [|[k new] l IH]; intros acc; cbn [foldl length]; [lia|].
  rewrite IH. unfold count_step. rewrite sum_values_insert. lia.
Qed.

(** The divisor of the refinement is the number of entries. *)
Lemma sum_values_count_labels (taxmap : gmap string string) :
  sum_values (count_labels taxmap) = size taxmap.
Proof.
  unfold count_labels. rewrite sum_values_count_loop.
  unfold sum_values. by rewrite map_to_list_empty, length_map_to_list.
Qed.

Lemma label_count_pos (taxmap : gmap string string) k lab :
  taxmap !! k = Some lab → 0 < label_count taxmap lab.
Proof.
  intros Hk. unfold label_count.
  assert ((k, lab) ∈ filter (λ kv : string * string, kv.2 = lab)
                       (map_to_list taxmap)) as Hin.
  { apply list_elem_of_filter. split; [done|].
    by apply elem_of_map_to_list. }
  destruct (filter _ _); [by apply elem_of_nil in Hin|cbn; lia].
Qed.

Lemma label_count_size (taxmap : gmap string string) lab :
  0 < label_count taxmap lab → 0 < size taxmap.
Proof.
  unfold label_count. rewrite <- length_map_to_list.
  pose proof (length_filter (λ kv : string * string, kv.2 = lab)
                (map_to_list taxmap)). lia.
Qed.

(** The refinement step returns, and keeps exactly the frequent
    entries. *)
Lemma refine_taxmap_spec (taxmap : gmap string string) threshold :
  of_nat_zero →
  refine_taxmap taxmap threshold
  = Ok (filter (frequent taxmap threshold) taxmap).
Proof.
  intros Hz. unfold refine_taxmap.
  set (total := of_nat (sum_values (count_labels taxmap))).
  rewrite (mapM_Ok _ (prod_map id (λ v, fdiv (of_nat v) total))).
  2:{ intros [k v] Hkv. apply elem_of_map_to_list in Hkv.
      rewrite count_labels_lookup in Hkv. case_decide; [done|].
      simplify_eq. unfold truediv.
      destruct (fis_zero total) eqn:Ez; [|done].
      apply Hz in Ez. rewrite sum_values_count_labels in Ez.
      pose proof (label_count_size taxmap k). lia. }
  cbn. rewrite list_to_map_fmap, list_to_map_to_list.
  rewrite (filterM_Ok _ (frequent taxmap threshold)).
  2:{ intros [old new] Hkv. apply elem_of_map_to_list in Hkv.
      unfold getitem. rewrite lookup_fmap, count_labels_lookup.
      pose proof (label_count_pos _ _ _ Hkv).
      case_decide; [lia|]. cbn. f_equal.
      unfold total. rewrite sum_values_count_labels.
      destruct (decide (frequent taxmap threshold (old, new))) as [Hf|Hf].
      - rewrite (bool_decide_eq_true_2 _ Hf). exact Hf.
      - rewrite (bool_decide_eq_false_2 _ Hf). apply not_true_is_false.
        exact Hf. }
  cbn. by rewrite <- map_filter_alt.
Qed.
End refine.

Section refine_claims.
Context `{Numbers}.

Lemma label_count_alt (m : gmap string string) lab :
  label_count m lab = size (filter (λ kv : string * string, kv.2 = lab) m).
Proof.
  unfold label_count. rewrite map_filter_alt, map_size_list_to_map; [done|].
  eapply sublist_NoDup; [apply (NoDup_fst_map_to_list m)|].
  apply fmap_sublist, sublist_filter.
Qed.

(** Entries are kept or dropped label by label, so a kept label keeps
    its count. *)
Lemma label_count_refined (taxmap : gmap string string) threshold k lab :
  frequent taxmap threshold (k, lab) →
  label_count (filter (frequent taxmap threshold) taxmap) lab
  = label_count taxmap lab.
Proof.
  intros Hf. rewrite !label_count_alt. f_equal.
  apply map_filter_filter_l. intros i x _ Hx. cbn in Hx. subst x.
  exact Hf.
Qed.

(** C10.  The refinement step never divides by zero.  Its divisor is the
    number of entries of the map; for the empty map the counts are empty,
    no division is made and the refined map is empty; otherwise the
    divisor is not zero and every division made returns a quotient, so
    that the step as a whole returns. *)
Theorem refine_never_divides_by_zero (taxmap : gmap string string)
    (threshold : float) :
  of_nat_zero →
  count_labels ∅ = ∅ ∧
  refine_taxmap ∅ threshold = Ok ∅ ∧
  sum_values (count_labels taxmap) = size taxmap ∧
  (taxmap ≠ ∅ →
     0 < size taxmap ∧
     fis_zero (of_nat (sum_values (count_labels taxmap))) = false) ∧
  (∀ k v, count_labels taxmap !! k = Some v →
     truediv (of_nat v) (of_nat (sum_values (count_labels taxmap)))
     = Ok (fdiv (of_nat v) (of_nat (size taxmap)))) ∧
  ∃ refined, refine_taxmap taxmap threshold = Ok refined.
Proof.
  intros Hz.
  assert (taxmap ≠ ∅ →
          0 < size taxmap ∧
          fis_zero (of_nat (sum_values (count_labels taxmap))) = false)
    as Hpos.
  { intros Hne. apply map_size_non_empty_iff in Hne. split; [lia|].
    rewrite sum_values_count_labels.
    destruct (fis_zero (of_nat (size taxmap))) eqn:E; [|done].
    apply Hz in E. lia. }
  split; [done|]. split.
  { rewrite refine_taxmap_spec by done. by rewrite map_filter_empty. }
  split; [apply sum_values_count_labels|]. split; [done|]. split.
  - intros k v Hk. rewrite count_labels_lookup in Hk.
    case_decide as Hc; [done|]. simplify_eq.
    assert (taxmap ≠ ∅) as Hne.
    { apply map_size_non_empty_iff.
      pose proof (label_count_size taxmap k). lia. }
    destruct (Hpos Hne) as [_ Hnz]. unfold truediv. rewrite Hnz.
    by rewrite sum_values_count_labels.
  - eexists. by apply refine_taxmap_spec.
Qed.

(** C7.  Refining is idempotent: applying the same threshold to a
    refined map returns that map. *)
Theorem refine_idempotent (taxmap refined : gmap string string)
    (threshold : float) :
  of_nat_zero → fdiv_antitone →
  refine_taxmap taxmap threshold = Ok refined →
  refine_taxmap refined threshold = Ok refined.
Proof.
  intros Hz Hanti. rewrite !refine_taxmap_spec by done.
  intros [= <-]. f_equal. apply map_filter_id. intros k lab Hk.
  pose proof Hk as Hk'.
  apply map_lookup_filter_Some in Hk' as [Hk' Hf].
  pose proof (label_count_refined _ _ _ _ Hf) as E.
  red. cbn [snd]. rewrite E.
  eapply Hanti; [| |exact Hf].
  - apply (label_count_size _ lab). by eapply label_count_pos.
  - apply map_size_filter.
Qed.
End refine_claims.

(** ** Reconnecting a row key *)

Section reconnect.
Context `{Util}.

Lemma fsplit_parts (k : string) :
  fsplit k = (feature_of k, name_of k, stratum_of k).
Proof. unfold feature_of, name_of, stratum_of. by destruct (fsplit k) as [[??]?]. Qed.

Lemma tax_connect_eq (k : string) (taxmap : gmap string string) :
  tax_connect k taxmap
  = fjoin (feature_of k) (name_of k)
      (Some (default c_unclassified
               (taxmap !! match stratum_of k with
                          | None => feature_of k
                          | Some s => if bool_decide (s = c_unclassified)
                                      then feature_of k else s
                          end))).
Proof.
  unfold tax_connect. rewrite fsplit_parts.
  destruct (stratum_of k) as [s|]; [|done]. by case_bool_decide.
Qed.

(** C8.  [tax_connect] is a function of the row key and the map, defined
    on every row key and map.  With no stratum, or the stratum
    "unclassified", it looks up the feature, otherwise the stratum; the
    result joins the feature and name of the key with the label found,
    or with the literal "unclassified" when the map has no entry. *)
Theorem tax_connect_total (k : string) (taxmap : gmap string string) :
  (stratum_of k = None ∨ stratum_of k = Some c_unclassified →
     tax_connect k taxmap
     = fjoin (feature_of k) (name_of k)
         (Some (default c_unclassified (taxmap !! feature_of k))) ∧
     (taxmap !! feature_of k = None →
        tax_connect k taxmap
        = fjoin (feature_of k) (name_of k) (Some c_unclassified))) ∧
  (∀ s, stratum_of k = Some s → s ≠ c_unclassified →
     tax_connect k taxmap
     = fjoin (feature_of k) (name_of k)
         (Some (default c_unclassified (taxmap !! s))) ∧
     (taxmap !! s = None →
        tax_connect k taxmap
        = fjoin (feature_of k) (name_of k) (Some c_unclassified))) ∧
  ∃ label, tax_connect k taxmap
           = fjoin (feature_of k) (name_of k) (Some label).
Proof.
  rewrite tax_connect_eq. split; [|split].
  - intros [->| ->]; [|rewrite bool_decide_eq_true_2 by done];
      (split; [done|by intros ->]).
  - intros s -> Hs. rewrite bool_decide_eq_false_2 by done.
    split; [done|by intros ->].
  - eauto.
Qed.
End reconnect.

(** ** The summary *)

Section summary.
Context `{Util} `{Numbers}.

Lemma tally_loop (rowheads : list string) :
  ∀ success total,
    foldl tally_step (success, total) rowheads
    = (success + length (resolved_rows rowheads),
       total + length (stratified_rows rowheads)).
Proof.
  induction rowheads as [|k l IH]; intros success total; cbn [foldl].
  { cbn. f_equal; lia. }
  unfold tally_step at 2. rewrite fsplit_parts.
  unfold resolved_rows, stratified_rows. rewrite !filter_cons.
  destruct (stratum_of k) as [s|] eqn:Es.
  - rewrite IH. unfold resolved_rows, stratified_rows.
    case_bool_decide as Hs; repeat case_decide; cbn;
      try (f_equal; lia); exfalso; intuition congruence.
  - rewrite IH. unfold resolved_rows, stratified_rows.
    repeat case_decide; cbn; try done; exfalso; intuition congruence.
Qed.

Lemma tally_spec (rowheads : list string) :
  tally rowheads
  = (length (resolved_rows rowheads), length (stratified_rows rowheads)).
Proof. exact (tally_loop rowheads 0 0). Qed.

Lemma report_spec (rowheads : list string) (level : string) :
  of_nat_zero →
  (report rowheads level = Raise ZeroDivisionError
   ↔ stratified_rows rowheads = []) ∧
  (stratified_rows rowheads ≠ [] →
   report rowheads level
   = Ok (mkSummary _ (length (stratified_rows rowheads))
           (length (resolved_rows rowheads)) level
           (round1 (fdiv (of_nat (100 * length (resolved_rows rowheads)))
                      (of_nat (length (stratified_rows rowheads))))))).
Proof.
  intros Hz. unfold report. rewrite tally_spec. unfold truediv.
  destruct (fis_zero (of_nat (length (stratified_rows rowheads)))) eqn:E.
  - apply Hz in E. apply length_zero_iff_nil in E. cbn. by rewrite E.
  - cbn. split; [split; [done|]|done].
    intros E'. rewrite E' in E. cbn in E.
    assert (fis_zero (of_nat 0) = true) as E0 by by apply Hz.
    congruence.
Qed.

(** C9.  In a run of [main] that gets as far as the report, the summary
    raises a division by zero exactly when the rewritten table has no
    stratified row; with at least one stratified row it returns the
    number of stratified rows, the number of those whose stratum is not
    "unclassified", and the rounded percentage of the second in the
    first. *)
Theorem summary_division_by_zero (level mode : string) (threshold : float)
    (tbl : Table cell) (datafile : list (list string))
    (tbl2 : Table float) (outcome : result Summary) :
  of_nat_zero →
  main level mode threshold tbl datafile = Ok (tbl2, outcome) →
  (outcome = Raise ZeroDivisionError
   ↔ stratified_rows (rowheads tbl2) = []) ∧
  (stratified_rows (rowheads tbl2) ≠ [] →
   outcome
   = Ok (mkSummary _ (length (stratified_rows (rowheads tbl2)))
           (length (resolved_rows (rowheads tbl2))) level
           (round1
              (fdiv (of_nat (100 * length (resolved_rows (rowheads tbl2))))
                 (of_nat (length (stratified_rows (rowheads tbl2)))))))).
Proof.
  intros Hz Hmain. unfold main in Hmain.
  destruct (build_taxmap _ _ _); [|done]. cbn in Hmain.
  destruct (refine_taxmap _ _); [|done]. cbn in Hmain.
  destruct (rebuild _ _); [|done]. cbn in Hmain.
  injection Hmain as <- <-. by apply report_spec.
Qed.
End summary.

(** ** Building the map *)

Lemma foldM_app {A B} (f : B → A → result B) (l1 l2 : list A) :
  ∀ acc, foldM f acc (l1 ++ l2) = (acc' ←! foldM f acc l1; foldM f acc' l2).
Proof.
  induction l1 as [|x l1 IH]; intros acc; cbn; [done|].
  destruct (f acc x); cbn; [apply IH|done].
Qed.

(** An invariant of the loop body is an invariant of the loop. *)
Lemma foldM_invariant {A B} (f : B → A → result B) (I : B → Prop)
    (l : list A) :
  (∀ acc x acc', x ∈ l → I acc → f acc x = Ok acc' → I acc') →
  ∀ acc acc', I acc → foldM f acc l = Ok acc' → I acc'.
Proof.
  induction l as [|x l IH]; intros Hf acc acc' HI; cbn.
  - by intros [= <-].
  - destruct (f acc x) as [acc1|] eqn:E; [cbn|done].
    apply IH.
    + intros a y a' Hy. apply Hf. by right.
    + eapply Hf; [by left|done..].
Qed.

Lemma split_head_whole (sep s : string) :
  contains sep s = false → split_head sep s = s.
Proof.
  induction s as [|c s IH]; intros Hc.
  - by destruct sep.
  - cbn [contains] in Hc. apply orb_false_iff in Hc as [Hp Hc].
    cbn [split_head]. rewrite Hp. by rewrite IH.
Qed.

Lemma assign_rank_spec target key lineage (m m' : gmap string string) :
  assign_rank target key lineage m = Ok m' →
  match first_at_rank target lineage with
  | Some (rk, nm) =>
      rk = target ∧
      ∃ c, lower_initial rk = Ok c ∧ m' = <[key := c +:+ "__" +:+ nm]> m
  | None => m' = m
  end.
Proof.
  induction lineage as [|[rk nm] rest IH]; cbn.
  - by intros [= <-].
  - case_bool_decide as Hrk; [|done].
    destruct (lower_initial rk) as [c|] eqn:Ec; [|done]. cbn.
    intros [= <-]. eauto.
Qed.

Lemma assign_rank_other target key lineage (m m' : gmap string string) k :
  assign_rank target key lineage m = Ok m' → k ≠ key → m' !! k = m !! k.
Proof.
  intros Ha Hk. apply assign_rank_spec in Ha.
  destruct (first_at_rank target lineage) as [[rk nm]|]; [|by subst].
  destruct Ha as (_ & c & _ & ->). by rewrite lookup_insert_ne.
Qed.

#[local] Arguments get_lineage : simpl never.

Section build.
Context `{Util}.


Lemma augment_row_other target t (m m' : gmap string string) feature k :
  augment_row target t m feature = Ok m' →
  ¬ (stratum_of feature = Some k ∧ contains "g__" k = true) →
  m' !! k = m !! k.
Proof.
  unfold augment_row. rewrite fsplit_parts. intros Ha Hk.
  destruct (stratum_of feature) as [s|]; [|by simplify_eq].
  destruct (contains "g__" s) eqn:Eg; [|by simplify_eq].
  assert (k ≠ s) as Hne by (intros ->; by apply Hk).
  case_bool_decide.
  - simplify_eq. by rewrite lookup_insert_ne.
  - destruct (get_lineage _ _); [|done]. by eapply assign_rank_other.
Qed.


(** With the target rank Genus, a qualifying stratum is mapped to its
    text before the first taxon delimiter, and stays so. *)
Lemma augment_row_genus t (m m' : gmap string string) feature s :
  augment_row "Genus" t m feature = Ok m' →
  (stratum_of feature = Some s ∧ contains "g__" s = true) ∨
  m !! s = Some (split_head c_taxon_delim s) →
  m' !! s = Some (split_head c_taxon_delim s).
Proof.
  unfold augment_row. rewrite fsplit_parts. intros Ha Hs.
  rewrite bool_decide_eq_true_2 in Ha by done.
  destruct (stratum_of feature) as [s'|] eqn:Es.
  - destruct (contains "g__" s') eqn:Eg; simplify_eq.
    + destruct (decide (s' = s)) as [->|Hne].
      * by rewrite lookup_insert_eq.
      * rewrite lookup_insert_ne by done.
        destruct Hs as [[? _]|?]; [congruence|done].
    + destruct Hs as [[? ?]|?]; [congruence|done].
  - simplify_eq. destruct Hs as [[? _]|?]; [congruence|done].
Qed.

Lemma augment_genus t features :
  ∀ (m m' : gmap string string),
    foldM (augment_row "Genus" t) m features = Ok m' →
    ∀ s, genus_stratum features s ∨
         m !! s = Some (split_head c_taxon_delim s) →
         m' !! s = Some (split_head c_taxon_delim s).
Proof.
  induction features as [|feature features IH]; intros m m'; cbn.
  - intros [= <-] s [(f & Hin & _)|Hs]; [by apply elem_of_nil in Hin|done].
  - destruct (augment_row "Genus" t m feature) as [m1|] eqn:Ea; [cbn|done].
    intros Hf s Hs. eapply IH; [done|].
    destruct Hs as [(f & Hin & Hst & Hg)|Hs].
    + apply elem_of_cons in Hin as [->|Hin].
      * right. eapply augment_row_genus; eauto.
      * left. by exists f.
    + right. eapply augment_row_genus; eauto.
Qed.

(** C6, as the code has it.  With the target rank Genus, in the map that
    [build_taxmap] returns every stratum that contains "g__" is mapped
    to its part before the first taxon delimiter (its genus token); it
    is mapped to itself when it contains no taxon delimiter. *)
Theorem build_taxmap_genus (features : list string)
    (datafile : list (list string)) (taxmap : gmap string string)
    (feature stratum : string) :
  build_taxmap features "Genus" datafile = Ok taxmap →
  feature ∈ features →
  stratum_of feature = Some stratum →
  contains "g__" stratum = true →
  taxmap !! stratum = Some (split_head c_taxon_delim stratum) ∧
  (contains c_taxon_delim stratum = false →
   taxmap !! stratum = Some stratum).
Proof.
  unfold build_taxmap. intros Hb Hin Hs Hg.
  destruct (foldM _ _ datafile) as [st|]; [cbn in Hb|done].
  assert (taxmap !! stratum = Some (split_head c_taxon_delim stratum))
    as E.
  { eapply augment_genus; [done|]. left. by exists feature. }
  split; [done|]. intros Hd. by rewrite E, split_head_whole.
Qed.
End build.

Section build_lca.
Context `{Util}.

Lemma unirefs_of_UniRef features k :
  k ∈ unirefs_of features → contains "UniRef" k = true.
Proof. unfold unirefs_of. intros Hk. by apply elem_of_filter in Hk as [? _]. Qed.

(** What a row can do to the map: nothing, or, read as an LCA row of one
    of the table's UniRef ids, the assignment from its lineage. *)
Lemma load_row_cases unirefs target st row st' :
  load_row unirefs target st row = Ok st' →
  ld_taxmap st' = ld_taxmap st ∨
  ∃ uni lca lineage,
    row = [uni; lca] ∧ reads_lca st ∧ uni ∈ unirefs ∧ tol st' = tol st ∧
    get_lineage (tol st) lca = Some lineage ∧
    assign_rank target uni lineage (ld_taxmap st) = Ok (ld_taxmap st').
Proof.
  unfold load_row, list_getitem. intros Hl.
  destruct row as [|h row]; [done|]. cbn in Hl.
  case_bool_decide; [left; by simplify_eq|].
  case_bool_decide; [left; by simplify_eq|].
  destruct (tol_mode st) eqn:Et.
  { destruct row as [|? [|? [|? ?]]]; left; by simplify_eq. }
  destruct (lca_mode st) eqn:El; [|left; by simplify_eq].
  destruct row as [|lca [|? ?]]; try done.
  case_bool_decide as Hin; [|left; by simplify_eq].
  destruct (get_lineage (tol st) lca) as [lineage|] eqn:Eg; [|done].
  destruct (assign_rank _ _ _ _) as [m|] eqn:Ea; [|done].
  cbn in Hl. simplify_eq. right. by exists h, lca, lineage.
Qed.

Lemma load_row_lca features target st uni lca :
  reads_lca st → uni ∈ unirefs_of features →
  load_row (unirefs_of features) target st [uni; lca]
  = match get_lineage (tol st) lca with
    | None => Raise NoReturn
    | Some lineage =>
        taxmap ←! assign_rank target uni lineage (ld_taxmap st);
        Ok (mkLoader (tol st) taxmap (tol_mode st) (lca_mode st))
    end.
Proof.
  intros [Et El] Hin. pose proof (unirefs_of_UniRef _ _ Hin) as Hu.
  unfold load_row, list_getitem. cbn.
  rewrite bool_decide_eq_false_2 by (intros ->; done).
  rewrite bool_decide_eq_false_2 by (intros ->; done).
  rewrite Et, El. by rewrite bool_decide_eq_true_2.
Qed.


End build_lca.

(** ** Reindexing the table *)

Lemma setdefault_append_all (ks : list string) (i : nat) :
  ∀ (index : gmap string (list nat)) k,
    foldl (λ idx x, setdefault_append idx x i) index ks !! k
    = if decide (length (filter (λ x, x = k) ks) = 0) then index !! k
      else Some (default [] (index !! k)
                 ++ replicate (length (filter (λ x, x = k) ks)) i).
Proof.
  induction ks as [|x ks IH]; intros index k; [done|].
  cbn [foldl]. rewrite IH. rewrite filter_cons. unfold setdefault_append.
  destruct (decide (x = k)) as [->|Hne].
  - rewrite lookup_insert_eq. cbn [length].
    rewrite (decide_False (P := S _ = 0)) by lia.
    case_decide as E; [by rewrite E|].
    simpl. by rewrite <- app_assoc.
  - by rewrite lookup_insert_ne.
Qed.

Section reindex.
Context `{Util}.

Lemma reindex_row_targets mode taxmap index i rowhead :
  reindex_row mode taxmap index i rowhead
  = foldl (λ idx x, setdefault_append idx x i) index
      (targets mode taxmap rowhead).
Proof.
  unfold reindex_row, targets. destruct (fsplit rowhead) as [[f n] s].
  rewrite foldl_app.
  repeat (case_bool_decide; cbn [foldl]); done.
Qed.

Lemma reindex_loop_lookup mode taxmap k (rowheads : list string) :
  ∀ i (index : gmap string (list nat)),
    reindex_loop mode taxmap index i rowheads !! k
    = if decide (sources_from mode taxmap k i rowheads = []) then index !! k
      else Some (default [] (index !! k)
                 ++ sources_from mode taxmap k i rowheads).
Proof.
  induction rowheads as [|rowhead rest IH]; intros i index; [done|].
  cbn [reindex_loop sources_from]. rewrite IH, reindex_row_targets.
  rewrite setdefault_append_all.
  destruct (filter _ (targets mode taxmap rowhead)) as [|t ts]; cbn.
  - done.
  - rewrite (decide_False (P := S _ = 0)) by lia.
    rewrite (decide_False (P := _ :: _ = [])) by done.
    case_decide as E; [rewrite E; by rewrite app_nil_r|].
    simpl. by rewrite <- app_assoc.
Qed.

(** The index maps a key to the rows appended under it. *)
Lemma reindex_lookup mode taxmap rowheads k :
  reindex mode taxmap rowheads !! k
  = if decide (sources mode taxmap rowheads k = []) then None
    else Some (sources mode taxmap rowheads k).
Proof.
  unfold reindex, sources. rewrite reindex_loop_lookup.
  by rewrite lookup_empty.
Qed.

Lemma elem_of_sources_from mode taxmap k (rowheads : list string) :
  ∀ i j,
    j ∈ sources_from mode taxmap k i rowheads
    ↔ ∃ p rowhead, j = i + p ∧ rowheads !! p = Some rowhead ∧
                   k ∈ targets mode taxmap rowhead.
Proof.
  induction rowheads as [|rowhead rest IH]; intros i j; cbn.
  { split; [by intros ?%elem_of_nil|by intros (? & ? & _ & ? & _)]. }
  rewrite elem_of_app, IH. split.
  - intros [Hj|(p & rh & -> & Hp & Hk)].
    + apply elem_of_replicate in Hj as [-> Hlen].
      exists 0, rowhead. split; [lia|]. split; [done|].
      destruct (filter _ _) as [|x xs] eqn:E; [done|].
      assert (x ∈ filter (λ x, x = k) (targets mode taxmap rowhead)) as Hx
        by (rewrite E; left).
      by apply list_elem_of_filter in Hx as [-> ?].
    + exists (S p), rh. split; [lia|done].
  - intros ([|p] & rh & -> & Hp & Hk); cbn in Hp.
    + left. simplify_eq. apply elem_of_replicate. split; [lia|].
      assert (k ∈ filter (λ x, x = k) (targets mode taxmap rh)) as Hx
        by by apply list_elem_of_filter.
      destruct (filter _ _); [by apply elem_of_nil in Hx|done].
    + right. exists p, rh. split; [lia|done].
Qed.

Lemma elem_of_sources mode taxmap rowheads k j :
  j ∈ sources mode taxmap rowheads k
  ↔ ∃ rowhead, rowheads !! j = Some rowhead ∧
               k ∈ targets mode taxmap rowhead.
Proof.
  unfold sources. rewrite elem_of_sources_from. split.
  - intros (p & rh & -> & ?). by exists rh.
  - intros (rh & ?). by exists j, rh.
Qed.


End reindex.

(** ** Rebuilding the table *)


Lemma mapM_lookup_inv {A B} (f : A → result B) (l : list A) :
  ∀ ys, mapM f l = Ok ys →
    ∀ p y, ys !! p = Some y → ∃ x, l !! p = Some x ∧ f x = Ok y.
Proof.
  induction l as [|x l IH]; intros ys; cbn.
  { intros [= <-] p y Hp. by rewrite lookup_nil in Hp. }
  destruct (f x) as [y|] eqn:Ey; [cbn|done].
  destruct (mapM f l) as [ys'|] eqn:Em; [cbn|done].
  intros [= <-] [|p] y' Hp; cbn in *.
  - simplify_eq. eauto.
  - by apply (IH ys').
Qed.


Section rebuild.
Context `{Util} `{Numbers}.







End rebuild.

(** ** What each mode does with a row *)

Section modes.
Context `{Util} `{Numbers}.







End modes.

Section unclassified_mode.
Context `{Util} `{Numbers}.


End unclassified_mode.

(** ** The model of [util] has the properties assumed of [util] *)

Lemma append_nil_l s : "" +:+ s = s.
Proof. done. Qed.

Lemma append_cons x a s : String x a +:+ s = String x (a +:+ s).
Proof. done. Qed.

Lemma prefix_split_head sep s :
  ∀ u, String.prefix u (split_head sep s) = true → String.prefix u s = true.
Proof.
  induction s as [|c s IH]; intros u; cbn [split_head].
  - by destruct (String.prefix sep "").
  - destruct (String.prefix sep (String c s)).
    + by destruct u.
    + destruct u as [|y u]; [done|]. cbn.
      destruct (Ascii.ascii_dec y c); [apply IH|done].
Qed.

(** The text before the first separator contains no separator. *)
Lemma split_head_clean sep s :
  sep ≠ "" → contains sep (split_head sep s) = false.
Proof.
  intros Hsep. induction s as [|c s IH].
  - cbn. destruct sep; [done|]. done.
  - cbn [split_head]. destruct (String.prefix sep (String c s)) eqn:Ep.
    + destruct sep; [done|]. done.
    + cbn [contains]. rewrite IH, orb_false_r.
      destruct (String.prefix sep (String c (split_head sep s))) eqn:Eh;
        [|done].
      assert (String c (split_head sep s) = split_head sep (String c s)) as E
        by (cbn [split_head]; by rewrite Ep).
      rewrite E in Eh. apply prefix_split_head in Eh. congruence.
Qed.

Lemma split_tail_none sep s : contains sep s = false → split_tail sep s = None.
Proof.
  induction s as [|c s IH]; intros Hc.
  - cbn in *. by rewrite orb_false_r in Hc; rewrite Hc.
  - cbn [contains] in Hc. apply orb_false_iff in Hc as [Hp Hc].
    cbn [split_tail]. rewrite Hp. by apply IH.
Qed.

Lemma str_drop_append sep b : str_drop (String.length sep) (sep +:+ b) = b.
Proof.
  induction sep as [|c sep IH]; [by destruct b|].
  by rewrite append_cons.
Qed.

Lemma prefix_char c x s :
  String.prefix (String c "") (String x s)
  = if Ascii.ascii_dec c x then true else false.
Proof. cbn. destruct (Ascii.ascii_dec c x); [by destruct s|done]. Qed.

(** A match of [r] that begins in [a] and goes on into [c :: w] lies
    within [a] when [c] does not occur in [r]. *)
Lemma prefix_straddle c r w :
  contains (String c "") r = false →
  ∀ a, String.prefix r (a +:+ String c w) = true → String.prefix r a = true.
Proof.
  induction r as [|y r IH]; intros Hc a Hp; [by destruct a|].
  cbn [contains] in Hc. apply orb_false_iff in Hc as [Hy Hc].
  rewrite prefix_char in Hy.
  destruct (Ascii.ascii_dec c y) as [|Hne]; [done|].
  destruct a as [|x a]; rewrite ?append_nil_l, ?append_cons in Hp; cbn in *.
  - destruct (Ascii.ascii_dec y c); [congruence|done].
  - destruct (Ascii.ascii_dec y x); [|done]. by apply IH.
Qed.

(** Cutting [a ++ sep ++ b] at the first separator gives [a] and [b] back
    when [a] contains no separator and the first character of the
    separator does not recur in it. *)
Lemma split_at_sep c r a b :
  contains (String c "") r = false →
  contains (String c r) a = false →
  split_head (String c r) (a +:+ String c r +:+ b) = a ∧
  split_tail (String c r) (a +:+ String c r +:+ b) = Some b.
Proof.
  intros Hc. induction a as [|x a IH]; intros Ha.
  - assert (String.prefix (String c r) (String c r +:+ b) = true) as Hp.
    { generalize (String c r). intros s.
      induction s as [|y s IH]; [by destruct b|].
      rewrite append_cons. cbn. rewrite IH.
      by destruct (Ascii.ascii_dec y y). }
    rewrite append_nil_l.
    assert (split_head (String c r) (String c r +:+ b) = "") as ->.
    { rewrite append_cons in *. cbn [split_head]. by rewrite Hp. }
    split; [done|]. rewrite <- (str_drop_append (String c r) b) at 2.
    rewrite append_cons in *. cbn [split_tail]. by rewrite Hp.
  - cbn [contains] in Ha. apply orb_false_iff in Ha as [Hp Ha].
    destruct (IH Ha) as [Eh Et].
    assert (String.prefix (String c r)
              (String x a +:+ String c r +:+ b) = false) as Hp'.
    { destruct (String.prefix _ (String x a +:+ _)) eqn:E; [|done].
      rewrite (append_cons x a) in E.
      cbn in E, Hp. destruct (Ascii.ascii_dec c x); [|done].
      apply prefix_straddle in E; [congruence|done]. }
    rewrite (append_cons x a) in *. cbn [split_head split_tail].
    rewrite Hp'. by rewrite Eh, Et.
Qed.

Lemma contains_char_append c a b :
  contains (String c "") (a +:+ b)
  = contains (String c "") a || contains (String c "") b.
Proof.
  induction a as [|x a IH].
  - rewrite append_nil_l. cbn. by destruct b.
  - rewrite append_cons. cbn [contains]. rewrite IH, !prefix_char.
    by destruct (Ascii.ascii_dec c x).
Qed.

Lemma contains_char_cons c x s :
  contains (String c "") (String x s) = false →
  contains (String c "") s = false.
Proof. cbn [contains]. by intros [_ ?]%orb_false_iff. Qed.

Lemma contains_char_split_head c sep s :
  contains (String c "") s = false →
  contains (String c "") (split_head sep s) = false.
Proof.
  induction s as [|x s IH]; intros Hc; cbn [split_head].
  - by destruct (String.prefix sep "").
  - destruct (String.prefix sep (String x s)); [done|].
    cbn [contains] in *. apply orb_false_iff in Hc as [Hp Hc].
    rewrite IH by done. rewrite prefix_char in *.
    by destruct (Ascii.ascii_dec c x).
Qed.

Lemma contains_char_str_drop c n :
  ∀ s, contains (String c "") s = false →
       contains (String c "") (str_drop n s) = false.
Proof.
  induction n as [|n IH]; intros [|x s] Hc; try done.
  cbn [str_drop]. apply IH. by eapply contains_char_cons.
Qed.

Lemma contains_char_split_tail c sep s t :
  contains (String c "") s = false → split_tail sep s = Some t →
  contains (String c "") t = false.
Proof.
  induction s as [|x s IH]; intros Hc; cbn [split_tail].
  - destruct (String.prefix sep ""); [|done]. intros [= <-].
    by apply contains_char_str_drop.
  - destruct (String.prefix sep (String x s)).
    + intros [= <-]. by apply contains_char_str_drop.
    + apply IH. by eapply contains_char_cons.
Qed.


(** The parts that the model's [fsplit] produces contain no delimiter, so
    the model's [fjoin] can be undone. *)
Lemma model_parts_clean k :
  contains "|" (model_fsplit k).1.1 = false ∧
  contains ": " (model_fsplit k).1.1 = false ∧
  ∀ n0, (model_fsplit k).1.2 = Some n0 →
        contains "|" n0 = false ∧ contains ": " n0 = false.
Proof.
  unfold model_fsplit. cbn [fst snd].
  assert (contains "|" (split_head "|" k) = false) as Hb
    by by apply split_head_clean.
  split; [by apply contains_char_split_head|].
  split; [by apply split_head_clean|].
  intros n0. unfold split_second.
  destruct (split_tail ": " (split_head "|" k)) as [t|] eqn:Et; [|done].
  intros [= <-]. split; [|by apply split_head_clean].
  apply contains_char_split_head.
  exact (contains_char_split_tail _ _ _ _ Hb Et).
Qed.

Lemma model_fsplit_fjoin_parts f n s :
  contains "|" f = false → contains ": " f = false →
  (∀ n0, n = Some n0 → contains "|" n0 = false ∧ contains ": " n0 = false) →
  model_fsplit (model_fjoin f n s) = (f, n, split_head "|" <$> s).
Proof.
  intros Hf1 Hf2 Hn.
  set (j0 := match n with Some n0 => f +:+ ": " +:+ n0 | None => f end).
  assert (contains "|" j0 = false) as Hj.
  { unfold j0. destruct n as [n0|]; [|done].
    destruct (Hn n0 eq_refl) as [Hn1 _].
    by rewrite !contains_char_append, Hf1, Hn1. }
  assert (split_head ": " j0 = f ∧ split_second ": " j0 = n) as [Ef En].
  { unfold j0, split_second. destruct n as [n0|].
    - destruct (Hn n0 eq_refl) as [_ Hn2].
      destruct (split_at_sep ":"%char " " f n0) as [-> ->]; [done..|].
      split; [done|]. cbn. f_equal. by apply split_head_whole.
    - split; [by apply split_head_whole|].
      by rewrite split_tail_none. }
  assert (model_fjoin f n s
          = match s with Some s0 => j0 +:+ "|" +:+ s0 | None => j0 end) as ->.
  { unfold model_fjoin, j0. by destruct n. }
  unfold model_fsplit. destruct s as [s0|].
  - destruct (split_at_sep "|"%char "" j0 s0) as [Eh Et]; [done..|].
    unfold split_second at 2. rewrite Eh, Et. by rewrite Ef, En.
  - rewrite (split_head_whole "|" j0) by done. rewrite Ef, En.
    unfold split_second. by rewrite split_tail_none.
Qed.

Lemma model_fsplit_fjoin : @fsplit_fjoin model_util.
Proof.
  intros k s. unfold feature_of, name_of, stratum_of.
  cbn [fsplit fjoin model_util].
  destruct (model_parts_clean k) as (Hf1 & Hf2 & Hn).
  rewrite (model_fsplit_fjoin_parts _ _ s Hf1 Hf2 Hn). cbn [fst snd].
  split; [done|]. split; [done|]. by destruct s.
Qed.

(** ** The rational numbers have the properties assumed of the numbers *)

Lemma Q_of_nat_zero : @of_nat_zero Q_numbers.
Proof.
  intros n. cbn. rewrite Qeq_bool_iff. unfold Qeq. cbn. lia.
Qed.


Lemma Q_fdiv_antitone : @fdiv_antitone Q_numbers.
Proof.
  intros c n m t Hm Hmn. cbn. rewrite !Qle_bool_iff, !Qred_correct.
  intros Ht. eapply Qle_trans; [exact Ht|].
  assert (0 < inject_Z (Z.of_nat m))%Q as Hm'.
  { unfold Qlt. cbn. lia. }
  assert (0 < inject_Z (Z.of_nat n))%Q as Hn'.
  { unfold Qlt. cbn. lia. }
  apply Qle_shift_div_l; [done|]. unfold Qdiv.
  rewrite <- Qmult_assoc, (Qmult_comm (/ _)), Qmult_assoc.
  apply Qle_shift_div_r; [done|].
  rewrite <- !inject_Z_mult, <- Zle_Qle. nia.
Qed.

(* ================================================================= *)
(** * The properties on the small run *)

Lemma wf_ex_tree : wf_tree ex_tree.
Proof. do 2 apply wf_tree_attach. apply wf_tree_init. Qed.

Lemma acyclic_ex_tree : acyclic_from ex_tree "Genus1".
Proof.
  apply (lineage_loop_acyclic ex_tree "Genus1" 4 []
           [("Genus", "Genus1"); ("Family", "FamilyX"); ("Root", "Root")]).
  vm_compute. reflexivity.
Qed.

Lemma get_lineage_acyclic_witness :
  wf_tree ex_tree ∧ acyclic_from ex_tree "Genus1" ∧
  ∃ chain lineage,
    get_lineage ex_tree "Genus1" = Some lineage ∧
    walk ex_tree (Some "Genus1") chain ∧
    lineage = (pair_of <$> chain) ++ [(c_root, c_root)] ∧
    (∀ node, nodes ex_tree !! "Genus1" = Some node → "Genus1" ≠ c_root →
       head lineage = Some (rank node, "Genus1")) ∧
    NoDup lineage.*2 ∧
    last lineage = Some (c_root, c_root).
Proof.
  split; [exact wf_ex_tree|]. split; [exact acyclic_ex_tree|].
  exact (get_lineage_acyclic ex_tree "Genus1" wf_ex_tree acyclic_ex_tree).
Defined.

(** The lineage of the genus, as computed. *)
Example get_lineage_ex :
  get_lineage ex_tree "Genus1"
  = Some [("Genus", "Genus1"); ("Family", "FamilyX"); ("Root", "Root")].
Proof. vm_compute. reflexivity. Qed.

(** ** C1: the unmapped row *)

Section unmapped.
Context `{Util}.

(** Outside unclassified mode an unmapped row without stratum is
    appended twice under its own key: once by the test on the unmapped
    feature and once more by the test that keeps the totals, which is
    an [if] of its own rather than an [elif]. *)
Lemma targets_unmapped_unstratified mode taxmap rowhead :
  feature_of rowhead = c_unmapped → stratum_of rowhead = None →
  mode ≠ c_umode →
  targets mode taxmap rowhead
  = rowhead :: rowhead ::
    (if bool_decide (mode = c_tmode)
     then [tax_connect rowhead taxmap] else []).
Proof.
  intros Hf Hs Hm. unfold targets. rewrite fsplit_parts, Hf, Hs.
  rewrite bool_decide_eq_true_2 by done.
  by rewrite bool_decide_eq_true_2.
Qed.
End unmapped.

(** C1, on the code.  A table whose only row is the unmapped row with the
    value 5: in totals mode the output has 10 under "UNMAPPED" and a
    further row "UNMAPPED|unclassified"; in stratified mode it has 10
    under "UNMAPPED"; only unclassified mode keeps the row as it was. *)
Theorem unmapped_row_doubled :
  @main model_util Q_numbers "Family" c_tmode (1 # 1000)%Q
    ex_table_unmapped []
  = Ok (mkTable ["UNMAPPED"; "UNMAPPED|unclassified"] ["sample1"]
          [[10%Q]; [5%Q]],
        Ok (mkSummary Q_numbers 1 0 "Family" 0%Q)) ∧
  @main model_util Q_numbers "Family" c_smode (1 # 1000)%Q
    ex_table_unmapped []
  = Ok (mkTable ["UNMAPPED"] ["sample1"] [[10%Q]],
        Raise ZeroDivisionError) ∧
  @main model_util Q_numbers "Family" c_umode (1 # 1000)%Q
    ex_table_unmapped []
  = Ok (mkTable ["UNMAPPED"] ["sample1"] [[5%Q]],
        Raise ZeroDivisionError).
Proof. vm_compute. done. Qed.

(** ** C2 and C3 on the small run *)





(** The keys of the split, as computed: the spec's example. *)
Example unclassified_splits_ex :
  @rebuild model_util Q_numbers ex_table_unclassified
    (@reindex model_util c_umode ex_taxmap_B (rowheads ex_table_unclassified))
  = Ok (mkTable ["UNMAPPED"; "UniRef50_B"; "UniRef50_B|f__FamilyY"]
          ["sample1"] [[1%Q]; [3%Q]; [3%Q]]).
Proof. vm_compute. reflexivity. Qed.

(** ** C5 and C6 on the small run *)

Lemma build_taxmap_ex :
  @build_taxmap model_util (rowheads ex_table) "Family" ex_datafile
  = Ok ex_taxmap.
Proof. vm_compute. reflexivity. Qed.


Lemma build_taxmap_genus_ex :
  @build_taxmap model_util (rowheads ex_table) "Genus" ex_datafile
  = Ok ex_taxmap_genus.
Proof. vm_compute. reflexivity. Qed.

Lemma build_taxmap_genus_witness :
  ex_taxmap_genus !! "g__Genus1.s__Species1"
  = Some (split_head (@c_taxon_delim model_util) "g__Genus1.s__Species1") ∧
  (contains (@c_taxon_delim model_util) "g__Genus1.s__Species1" = false →
   ex_taxmap_genus !! "g__Genus1.s__Species1"
   = Some "g__Genus1.s__Species1").
Proof.
  apply (@build_taxmap_genus model_util (rowheads ex_table) ex_datafile
           ex_taxmap_genus "UniRef50_A|g__Genus1.s__Species1").
  - exact build_taxmap_genus_ex.
  - cbn. right. right. left.
  - vm_compute. reflexivity.
  - vm_compute. reflexivity.
Defined.

(** C6 as stated fails: a stratum with a species part is mapped to its
    genus token, not to itself. *)
Lemma build_taxmap_genus_not_identity :
  ¬ (∀ (features : list string) (datafile : list (list string))
       (taxmap : gmap string string) (feature stratum : string),
       @build_taxmap model_util features "Genus" datafile = Ok taxmap →
       feature ∈ features →
       @stratum_of model_util feature = Some stratum →
       contains "g__" stratum = true →
       taxmap !! stratum = Some stratum).
Proof.
  intros Hid.
  specialize (Hid (rowheads ex_table) ex_datafile ex_taxmap_genus
                "UniRef50_A|g__Genus1.s__Species1" "g__Genus1.s__Species1"
                build_taxmap_genus_ex).
  assert (ex_taxmap_genus !! "g__Genus1.s__Species1" = Some "g__Genus1")
    as E by (vm_compute; reflexivity).
  rewrite E in Hid.
  assert (Some "g__Genus1" = Some "g__Genus1.s__Species1") as Hc.
  { apply Hid.
    - cbn. right. right. left.
    - vm_compute. reflexivity.
    - vm_compute. reflexivity. }
  discriminate Hc.
Qed.

(** ** C7, C9 and C10 on the small run *)

Lemma refine_ex :
  @refine_taxmap Q_numbers ex_labels (1 # 2)%Q = Ok ex_labels_refined.
Proof. vm_compute. reflexivity. Qed.

Lemma refine_idempotent_witness :
  @refine_taxmap Q_numbers ex_labels (1 # 2)%Q = Ok ex_labels_refined ∧
  @refine_taxmap Q_numbers ex_labels_refined (1 # 2)%Q
  = Ok ex_labels_refined.
Proof.
  split; [exact refine_ex|].
  exact (@refine_idempotent Q_numbers ex_labels ex_labels_refined (1 # 2)%Q
           Q_of_nat_zero Q_fdiv_antitone refine_ex).
Defined.

Lemma refine_never_divides_by_zero_witness :
  count_labels ∅ = ∅ ∧
  @refine_taxmap Q_numbers ∅ (1 # 2)%Q = Ok ∅ ∧
  sum_values (count_labels ex_labels) = size ex_labels ∧
  (ex_labels ≠ ∅ →
     0 < size ex_labels ∧
     @fis_zero Q_numbers
       (@of_nat Q_numbers (sum_values (count_labels ex_labels))) = false) ∧
  (∀ k v, count_labels ex_labels !! k = Some v →
     @truediv Q_numbers (@of_nat Q_numbers v)
       (@of_nat Q_numbers (sum_values (count_labels ex_labels)))
     = Ok (@fdiv Q_numbers (@of_nat Q_numbers v)
             (@of_nat Q_numbers (size ex_labels)))) ∧
  ∃ refined, @refine_taxmap Q_numbers ex_labels (1 # 2)%Q = Ok refined.
Proof.
  exact (@refine_never_divides_by_zero Q_numbers ex_labels (1 # 2)%Q
           Q_of_nat_zero).
Defined.

Lemma main_ex :
  @main model_util Q_numbers "Family" c_tmode (1 # 1000)%Q ex_table
    ex_datafile
  = Ok (mkTable ex_rowheads2 ["sample1"] [[2%Q]; [1%Q]; [2%Q]; [2%Q]],
        Ok (mkSummary Q_numbers 2 1 "Family" 50%Q)).
Proof. vm_compute. reflexivity. Qed.

Lemma main_ex_unmapped :
  @main model_util Q_numbers "Family" c_umode (1 # 1000)%Q
    ex_table_unmapped []
  = Ok (mkTable ["UNMAPPED"] ["sample1"] [[5%Q]], Raise ZeroDivisionError).
Proof. vm_compute. reflexivity. Qed.

Lemma summary_division_by_zero_witness :
  ((Ok (mkSummary Q_numbers 2 1 "Family" 50%Q) = Raise ZeroDivisionError
    ↔ @stratified_rows model_util ex_rowheads2 = []) ∧
   (@stratified_rows model_util ex_rowheads2 ≠ [] →
    Ok (mkSummary Q_numbers 2 1 "Family" 50%Q)
    = Ok (mkSummary Q_numbers
            (length (@stratified_rows model_util ex_rowheads2))
            (length (@resolved_rows model_util ex_rowheads2)) "Family"
            (@round1 Q_numbers
               (@fdiv Q_numbers
                  (@of_nat Q_numbers
                     (100 * length (@resolved_rows model_util ex_rowheads2)))
                  (@of_nat Q_numbers
                     (length (@stratified_rows model_util ex_rowheads2)))))))) ∧
  (@Raise (@Summary Q_numbers) ZeroDivisionError = Raise ZeroDivisionError
   ↔ @stratified_rows model_util ["UNMAPPED"] = []).
Proof.
  split.
  - exact (@summary_division_by_zero model_util Q_numbers "Family" c_tmode
             (1 # 1000)%Q ex_table ex_datafile _ _ Q_of_nat_zero main_ex).
  - exact (proj1 (@summary_division_by_zero model_util Q_numbers "Family"
                    c_umode (1 # 1000)%Q ex_table_unmapped [] _ _
                    Q_of_nat_zero main_ex_unmapped)).
Defined.

(** ** C8 on the small run: the spec's example *)

Example tax_connect_ex :
  @tax_connect model_util "UniRef50_B|unclassified" ex_taxmap_B
  = "UniRef50_B|f__FamilyY" ∧
  @tax_connect model_util "UniRef50_A|g__Genus1.s__Species1" ex_taxmap
  = "UniRef50_A|f__FamilyX" ∧
  @tax_connect model_util "UniRef50_Z: a name|g__Genus9" ex_taxmap
  = "UniRef50_Z: a name|unclassified".
Proof. vm_compute. done. Qed.

(* ================================================================= *)
(** * Further properties of the code *)

(** ** The tree of life *)

Lemma attach_all_lookup_from (taxa : list Taxon) (k : string) :
  ∀ t, nodes (foldl attach t taxa) !! k
       = match nodes t !! k with
         | Some node => Some node
         | None => head (filter (λ node, name node = k) taxa)
         end.
Proof.
  induction taxa as [|node taxa IH]; intros t; cbn [foldl].
  { by destruct (nodes t !! k). }
  rewrite IH. unfold attach. rewrite filter_cons.
  destruct (nodes t !! name node) as [old|] eqn:Hn; cbn.
  - destruct (nodes t !! k) as [nd|] eqn:Hk; [done|].
    rewrite decide_False; [done|]. intros E. rewrite E in Hn. congruence.
  - destruct (decide (name node = k)) as [<-|Hne].
    + by rewrite lookup_insert_eq, Hn.
    + rewrite lookup_insert_ne by done. done.
Qed.

(** X1.  After any list of taxa has been attached to a new tree, the root
    is still the taxon of [__init__], and every other name holds the first
    taxon of the list with that name: a later taxon with a name already
    seen, or one named "Root", changes nothing. *)
Theorem attach_first_wins (taxa : list Taxon) (k : string) :
  nodes (foldl attach TreeOfLife_init taxa) !! k
  = if decide (k = c_root) then Some (mkTaxon c_root c_root None)
    else head (filter (λ node, name node = k) taxa).
Proof.
  rewrite attach_all_lookup_from. cbn.
  destruct (decide (k = c_root)) as [->|Hne].
  - by rewrite lookup_insert_eq.
  - rewrite lookup_insert_ne by done. by rewrite lookup_empty.
Qed.

(** The taxa of [ex_taxa]: the second "Genus1" and the "Root" are ignored. *)
Example attach_first_wins_ex :
  nodes (foldl attach TreeOfLife_init ex_taxa) !! "Genus1"
  = Some (mkTaxon "Genus1" "Genus" (Some "FamilyX")) ∧
  nodes (foldl attach TreeOfLife_init ex_taxa) !! "Root"
  = Some (mkTaxon "Root" "Root" None).
Proof. vm_compute. done. Qed.

(** X2.  On a tree built by [__init__] and [attach], [get_lineage] fails
    to return exactly when the parent chain of the name is not acyclic,
    and then no number of iterations is enough. *)
Theorem get_lineage_hangs_iff_cyclic (t : TreeOfLife) (n : string) :
  wf_tree t →
  (get_lineage t n = None ↔ ¬ acyclic_from t n) ∧
  (¬ acyclic_from t n →
   ∀ fuel lineage, lineage_loop fuel t (Some n) lineage = None).
Proof.
  intros Hwf. split; [split|].
  - intros Hnone Hacy. destruct (walk_exists _ _ Hacy) as [chain Hw].
    unfold get_lineage in Hnone.
    rewrite (lineage_loop_walk _ _ _ Hw) in Hnone; [done|].
    pose proof (walk_length _ _ _ Hwf Hw). lia.
  - intros Hcyc. by apply lineage_loop_cyclic.
  - intros Hcyc fuel lineage. by apply lineage_loop_cyclic.
Qed.

Lemma wf_ex_cyclic_tree : wf_tree ex_cyclic_tree.
Proof. do 2 apply wf_tree_attach. apply wf_tree_init. Qed.

Lemma cyclic_ex_cyclic_tree : ¬ acyclic_from ex_cyclic_tree "GenusA".
Proof.
  intros Hacy. apply (Hacy "GenusA"); [by left|].
  apply (climbs_more _ "GenusA" "GenusB" "GenusA").
  - exists (mkTaxon "GenusA" "Genus" (Some "GenusB")).
    split; [vm_compute; reflexivity|]. split; [|reflexivity].
    cbn. discriminate.
  - apply climbs_one.
    exists (mkTaxon "GenusB" "Genus" (Some "GenusA")).
    split; [vm_compute; reflexivity|]. split; [|reflexivity].
    cbn. discriminate.
Qed.

Lemma get_lineage_hangs_iff_cyclic_witness :
  (get_lineage ex_cyclic_tree "GenusA" = None
   ↔ ¬ acyclic_from ex_cyclic_tree "GenusA") ∧
  (¬ acyclic_from ex_cyclic_tree "GenusA" →
   ∀ fuel lineage,
     lineage_loop fuel ex_cyclic_tree (Some "GenusA") lineage = None).
Proof.
  exact (get_lineage_hangs_iff_cyclic ex_cyclic_tree "GenusA"
           wf_ex_cyclic_tree).
Defined.

(** X3.  A lineage that [get_lineage] returns is not empty and has at most
    as many entries as the tree has nodes. *)
Theorem get_lineage_length (t : TreeOfLife) (n : string)
    (lineage : list (string * string)) :
  wf_tree t → get_lineage t n = Some lineage →
  0 < length lineage ∧ length lineage ≤ size (nodes t).
Proof.
  intros Hwf Hl. unfold get_lineage in Hl.
  destruct (lineage_loop_inv _ _ _ _ _ Hl) as (chain & Hw & Hlen).
  rewrite (lineage_loop_walk _ _ _ Hw) in Hl by done.
  injection Hl as <-. cbn. rewrite length_app, length_fmap. cbn.
  pose proof (walk_length _ _ _ Hwf Hw). lia.
Qed.

Lemma get_lineage_length_witness :
  0 < length [("Genus", "Genus1"); ("Family", "FamilyX"); ("Root", "Root")]
  ∧ length [("Genus", "Genus1"); ("Family", "FamilyX"); ("Root", "Root")]
    ≤ size (nodes ex_tree).
Proof.
  apply (get_lineage_length ex_tree "Genus1").
  - exact wf_ex_tree.
  - vm_compute. reflexivity.
Defined.

(** ** Reading the data file *)

Lemma foldM_raise {A B} (f : B → A → result B) acc pre x post st e :
  foldM f acc pre = Ok st → f st x = Raise e →
  foldM f acc (pre ++ x :: post) = Raise e.
Proof. intros Hpre Hx. rewrite foldM_app, Hpre. cbn. by rewrite Hx. Qed.

Lemma foldM_skip {A B} (f : B → A → result B) acc pre x post st :
  foldM f acc pre = Ok st → f st x = Ok st →
  foldM f acc (pre ++ x :: post) = foldM f acc (pre ++ post).
Proof. intros Hpre Hx. rewrite !foldM_app, Hpre. cbn. by rewrite Hx. Qed.

Lemma load_row_data unirefs target st h row :
  h ≠ c_tol_header → h ≠ c_lca_header →
  load_row unirefs target st (h :: row)
  = if tol_mode st then
      match h :: row with
      | [nm; rk; parent] =>
          Ok (mkLoader (attach (tol st) (mkTaxon nm rk (Some parent)))
                (ld_taxmap st) (tol_mode st) (lca_mode st))
      | _ => Raise ValueError
      end
    else if lca_mode st then
      match h :: row with
      | [uni; lca] =>
          if bool_decide (uni ∈ unirefs) then
            match get_lineage (tol st) lca with
            | None => Raise NoReturn
            | Some lineage =>
                taxmap ←! assign_rank target uni lineage (ld_taxmap st);
                Ok (mkLoader (tol st) taxmap (tol_mode st) (lca_mode st))
            end
          else Ok st
      | _ => Raise ValueError
      end
    else Ok st.
Proof.
  intros H1 H2. unfold load_row, list_getitem. cbn [lookup list_lookup rbind].
  rewrite (bool_decide_eq_false_2 _ H1), (bool_decide_eq_false_2 _ H2).
  reflexivity.
Qed.

Section reading.
Context `{Util}.

(** X4.  Malformed rows of the data file stop [build_taxmap]: an empty row
    raises IndexError; a row that is not a header and has other than three
    columns raises ValueError when read in TOL mode, and one with other
    than two columns raises ValueError when read in LCA mode (whether or
    not its id is one of the table's). *)
Theorem build_taxmap_malformed_row (features : list string)
    (target_rank : string) (pre post : list (list string)) (st : loader) :
  foldM (load_row (unirefs_of features) target_rank) loader_init pre = Ok st →
  build_taxmap features target_rank (pre ++ [] :: post) = Raise IndexError ∧
  (∀ row, data_row row → tol_mode st = true → length row ≠ 3 →
     build_taxmap features target_rank (pre ++ row :: post)
     = Raise ValueError) ∧
  (∀ row, data_row row → reads_lca st → length row ≠ 2 →
     build_taxmap features target_rank (pre ++ row :: post)
     = Raise ValueError).
Proof.
  intros Hpre. unfold build_taxmap. fold loader_init. split; [|split].
  - by rewrite (foldM_raise _ _ _ _ _ _ IndexError Hpre).
  - intros row (h & Hh & H1 & H2) Ht Hlen.
    rewrite (foldM_raise _ _ _ _ _ _ ValueError Hpre); [done|].
    destruct row as [|h' row]; simplify_eq/=.
    rewrite load_row_data, Ht by done.
    by destruct row as [|? [|? [|? ?]]].
  - intros row (h & Hh & H1 & H2) [Ht Hl] Hlen.
    rewrite (foldM_raise _ _ _ _ _ _ ValueError Hpre); [done|].
    destruct row as [|h' row]; simplify_eq/=.
    rewrite load_row_data, Ht, Hl by done.
    by destruct row as [|? [|? ?]].
Qed.

(** X5.  Rows in front of the first header are passed over, whatever
    their number of columns: the map is the one built from the rest of the
    file. *)
Theorem build_taxmap_skips_preamble (features : list string)
    (target_rank : string) (pre rest : list (list string)) :
  Forall data_row pre →
  build_taxmap features target_rank (pre ++ rest)
  = build_taxmap features target_rank rest.
Proof.
  intros Hpre. unfold build_taxmap. fold loader_init.
  rewrite foldM_app.
  assert (foldM (load_row (unirefs_of features) target_rank) loader_init pre
          = Ok loader_init) as ->; [|done].
  induction Hpre as [|row pre (h & Hh & H1 & H2) _ IH]; [done|].
  destruct row as [|h' row]; simplify_eq/=.
  by rewrite load_row_data.
Qed.

(** X6.  An LCA row whose id is not one of the UniRef ids of the table is
    passed over without its lineage being computed: the map is the one
    built from the file without that row. *)
Theorem build_taxmap_foreign_lca (features : list string)
    (target_rank : string) (pre post : list (list string)) (st : loader)
    (uni lca : string) :
  foldM (load_row (unirefs_of features) target_rank) loader_init pre = Ok st →
  reads_lca st → data_row [uni; lca] → uni ∉ unirefs_of features →
  build_taxmap features target_rank (pre ++ [uni; lca] :: post)
  = build_taxmap features target_rank (pre ++ post).
Proof.
  intros Hpre [Ht Hl] (h & Hh & H1 & H2) Hin. simplify_eq/=.
  unfold build_taxmap. fold loader_init.
  rewrite (foldM_skip _ _ _ _ _ _ Hpre); [done|].
  rewrite load_row_data, Ht, Hl by done.
  by rewrite bool_decide_eq_false_2.
Qed.
End reading.

Lemma build_taxmap_malformed_row_witness :
  @build_taxmap model_util (rowheads ex_table) "Family"
    ([["# TOL"]] ++ [] :: [["FamilyX"; "Family"; "Root"]])
  = Raise IndexError ∧
  (∀ row, data_row row → tol_mode ex_loader_tol = true → length row ≠ 3 →
     @build_taxmap model_util (rowheads ex_table) "Family"
       ([["# TOL"]] ++ row :: [["FamilyX"; "Family"; "Root"]])
     = Raise ValueError) ∧
  (∀ row, data_row row → reads_lca ex_loader_tol → length row ≠ 2 →
     @build_taxmap model_util (rowheads ex_table) "Family"
       ([["# TOL"]] ++ row :: [["FamilyX"; "Family"; "Root"]])
     = Raise ValueError).
Proof.
  apply (@build_taxmap_malformed_row model_util (rowheads ex_table) "Family"
           [["# TOL"]] [["FamilyX"; "Family"; "Root"]] ex_loader_tol).
  vm_compute. reflexivity.
Defined.

(** A TOL row with two columns, as computed. *)
Example build_taxmap_malformed_ex :
  @build_taxmap model_util (rowheads ex_table) "Family"
    [["# TOL"]; ["FamilyX"; "Family"]] = Raise ValueError.
Proof. vm_compute. reflexivity. Qed.

Lemma build_taxmap_skips_preamble_witness :
  @build_taxmap model_util (rowheads ex_table) "Family"
    ([["UniRef50_A"; "Genus1"]; ["only one column"]] ++ ex_datafile)
  = @build_taxmap model_util (rowheads ex_table) "Family" ex_datafile.
Proof.
  apply (@build_taxmap_skips_preamble model_util).
  repeat constructor; eexists; (split; [reflexivity|split; discriminate]).
Defined.

Lemma build_taxmap_foreign_lca_witness :
  @build_taxmap model_util (rowheads ex_table) "Family"
    (take 5 ex_datafile ++ ["UniRef50_C"; "Genus1"] :: [])
  = @build_taxmap model_util (rowheads ex_table) "Family"
      (take 5 ex_datafile ++ []).
Proof.
  apply (@build_taxmap_foreign_lca model_util (rowheads ex_table) "Family"
           (take 5 ex_datafile) [] (mkLoader ex_tree ex_taxmap_lca false true)).
  - vm_compute. reflexivity.
  - split; reflexivity.
  - eexists. split; [reflexivity|split; discriminate].
  - apply (bool_decide_eq_false_1 _). vm_compute. reflexivity.
Defined.

(** ** The map at a rank other than Genus *)

Lemma first_at_rank_elem target lineage rk nm :
  (rk, nm) ∈ lineage → rk = target →
  is_Some (first_at_rank target lineage).
Proof.
  intros Hin <-. induction lineage as [|[rk' nm'] rest IH];
    [by apply elem_of_nil in Hin|].
  cbn. case_bool_decide; [eauto|].
  apply IH. apply elem_of_cons in Hin as [?|?]; [congruence|done].
Qed.

Lemma assign_rank_labels target key lineage (m m' : gmap string string) :
  labels_at_rank target m →
  assign_rank target key lineage m = Ok m' → labels_at_rank target m'.
Proof.
  intros Hm Ha. apply assign_rank_spec in Ha.
  destruct (first_at_rank target lineage) as [[rk nm]|]; [|by subst].
  destruct Ha as (-> & c & Hc & ->). intros k v Hk.
  apply lookup_insert_Some in Hk as [[_ <-]|[_ Hk]]; eauto.
Qed.

Lemma assign_rank_keeps target key lineage (m m' : gmap string string) k :
  assign_rank target key lineage m = Ok m' →
  is_Some (m !! k) → is_Some (m' !! k).
Proof.
  intros Ha Hk. apply assign_rank_spec in Ha.
  destruct (first_at_rank target lineage) as [[rk nm]|]; [|by subst].
  destruct Ha as (_ & c & _ & ->).
  destruct (decide (key = k)) as [->|Hne].
  - rewrite lookup_insert_eq. eauto.
  - by rewrite lookup_insert_ne.
Qed.

Section ranks.
Context `{Util}.

Lemma augment_row_rank target t (m m' : gmap string string) feature s :
  target ≠ "Genus" → augment_row target t m feature = Ok m' →
  stratum_of feature = Some s → contains "g__" s = true →
  ∃ lineage,
    get_lineage t (genus_name s) = Some lineage ∧
    assign_rank target s lineage m = Ok m'.
Proof.
  unfold augment_row, genus_name. rewrite fsplit_parts.
  intros Ht Ha Hs Hg. rewrite Hs, Hg in Ha.
  rewrite bool_decide_eq_false_2 in Ha by done.
  destruct (get_lineage _ _) as [lineage|]; [eauto|done].
Qed.

(** What the augmentation makes of the entry of a stratum, from the entry
    [before] that the LCA rows left. *)
Let ranked (target : string) (t : TreeOfLife) (s : string)
    (before : option string) (m : gmap string string) : Prop :=
  ∃ lineage,
    get_lineage t (genus_name s) = Some lineage ∧
    match first_at_rank target lineage with
    | Some (rk, nm) =>
        rk = target ∧
        ∃ c, lower_initial rk = Ok c ∧ m !! s = Some (c +:+ "__" +:+ nm)
    | None => m !! s = before
    end.

Lemma augment_rank target t s before features :
  target ≠ "Genus" →
  ∀ (m m' : gmap string string),
    foldM (augment_row target t) m features = Ok m' →
    (genus_stratum features s ∧ m !! s = before) ∨ ranked target t s before m →
    ranked target t s before m'.
Proof.
  intros Ht. induction features as [|feature features IH]; intros m m'; cbn.
  - intros [= <-] [[(f & Hin & _) _]|Hr]; [by apply elem_of_nil in Hin|done].
  - destruct (augment_row target t m feature) as [m1|] eqn:Ea; [cbn|done].
    intros Hf Hs. apply (IH m1 m' Hf).
    destruct (decide (stratum_of feature = Some s ∧ contains "g__" s = true))
      as [[Hst Hg]|Hno].
    + right.
      destruct (augment_row_rank _ _ _ _ _ _ Ht Ea Hst Hg)
        as (lineage & Hl & Ha).
      exists lineage. split; [done|]. apply assign_rank_spec in Ha.
      destruct (first_at_rank target lineage) as [[rk nm]|] eqn:Ef.
      * destruct Ha as (Hrk & c & Hc & ->). split; [done|].
        exists c. split; [done|]. by rewrite lookup_insert_eq.
      * subst m1. destruct Hs as [[_ Hb]|(l' & Hl' & Hr)]; [done|].
        rewrite Hl in Hl'. simplify_eq. by rewrite Ef in Hr.
    + pose proof (augment_row_other _ _ _ _ _ _ Ea Hno) as E.
      destruct Hs as [[(f & Hin & Hst & Hg) Hb]|(l' & Hl' & Hr)].
      * left. split; [|by rewrite E].
        apply elem_of_cons in Hin as [->|Hin].
        -- by destruct Hno.
        -- by exists f.
      * right. exists l'. split; [done|]. rewrite E.
        by destruct (first_at_rank target l') as [[rk nm]|].
Qed.

(** X7.  With a target rank other than Genus, the map that [build_taxmap]
    returns holds for every stratum of the table that contains "g__" the
    label of the first pair at the target rank in the lineage of its genus
    (the stratum up to the first taxon delimiter, without "g__"), computed
    in the tree as the whole file left it; with no pair at that rank the
    entry is the one the LCA rows left, if any. *)
Theorem build_taxmap_genus_stratum_rank (features : list string)
    (target_rank : string) (datafile : list (list string))
    (taxmap : gmap string string) (s : string) :
  build_taxmap features target_rank datafile = Ok taxmap →
  target_rank ≠ "Genus" → genus_stratum features s →
  ∃ st lineage,
    foldM (load_row (unirefs_of features) target_rank) loader_init datafile
    = Ok st ∧
    get_lineage (tol st) (genus_name s) = Some lineage ∧
    match first_at_rank target_rank lineage with
    | Some (rk, nm) =>
        rk = target_rank ∧
        ∃ c, lower_initial rk = Ok c ∧
             taxmap !! s = Some (c +:+ "__" +:+ nm)
    | None => taxmap !! s = ld_taxmap st !! s
    end.
Proof.
  unfold build_taxmap. fold loader_init. intros Hb Ht Hs.
  destruct (foldM _ loader_init datafile) as [st|]; [cbn in Hb|done].
  destruct (augment_rank target_rank (tol st) s (ld_taxmap st !! s)
              features Ht _ _ Hb) as (lineage & Hl & Hr); [by left|].
  by exists st, lineage.
Qed.

(** X8.  With a target rank other than Genus, every label of the map that
    [build_taxmap] returns is the lower-case initial of the target rank
    followed by "__" and a name. *)
Theorem build_taxmap_labels (features : list string) (target_rank : string)
    (datafile : list (list string)) (taxmap : gmap string string) :
  build_taxmap features target_rank datafile = Ok taxmap →
  target_rank ≠ "Genus" →
  labels_at_rank target_rank taxmap.
Proof.
  unfold build_taxmap. fold loader_init. intros Hb Ht.
  destruct (foldM _ loader_init datafile) as [st|] eqn:Hload;
    [cbn in Hb|done].
  assert (labels_at_rank target_rank (ld_taxmap st)) as Hst.
  { apply (foldM_invariant (load_row (unirefs_of features) target_rank)
             (λ st, labels_at_rank target_rank (ld_taxmap st)) datafile)
      with (acc := loader_init); [| |done].
    - intros st0 row st1 _ Hl Hrow.
      destruct (load_row_cases _ _ _ _ _ Hrow)
        as [->|(u & lca & lineage & _ & _ & _ & _ & _ & Ha)]; [done|].
      by eapply assign_rank_labels.
    - intros k v Hk. cbn in Hk. by rewrite lookup_empty in Hk. }
  apply (foldM_invariant (augment_row target_rank (tol st))
           (labels_at_rank target_rank) features)
    with (acc := ld_taxmap st); [|done..].
  intros m feature m' _ Hm Ha.
  destruct (stratum_of feature) as [s|] eqn:Es.
  - destruct (contains "g__" s) eqn:Eg.
    + destruct (augment_row_rank _ _ _ _ _ _ Ht Ha Es Eg)
        as (lineage & _ & Has).
      by eapply assign_rank_labels.
    + unfold augment_row in Ha. rewrite fsplit_parts, Es, Eg in Ha.
      by simplify_eq.
  - unfold augment_row in Ha. rewrite fsplit_parts, Es in Ha.
    by simplify_eq.
Qed.
End ranks.

Lemma build_taxmap_genus_stratum_rank_witness :
  ∃ st lineage,
    foldM (load_row (@unirefs_of model_util (rowheads ex_table)) "Family")
      loader_init ex_datafile = Ok st ∧
    get_lineage (tol st) (@genus_name model_util "g__Genus1.s__Species1")
    = Some lineage ∧
    match first_at_rank "Family" lineage with
    | Some (rk, nm) =>
        rk = "Family" ∧
        ∃ c, lower_initial rk = Ok c ∧
             ex_taxmap !! "g__Genus1.s__Species1" = Some (c +:+ "__" +:+ nm)
    | None => ex_taxmap !! "g__Genus1.s__Species1"
              = ld_taxmap st !! "g__Genus1.s__Species1"
    end.
Proof.
  apply (@build_taxmap_genus_stratum_rank model_util (rowheads ex_table)
           "Family" ex_datafile ex_taxmap "g__Genus1.s__Species1").
  - exact build_taxmap_ex.
  - discriminate.
  - exists "UniRef50_A|g__Genus1.s__Species1".
    split; [cbn; right; right; left|]. split; vm_compute; reflexivity.
Defined.

Lemma build_taxmap_labels_witness : labels_at_rank "Family" ex_taxmap.
Proof.
  apply (@build_taxmap_labels model_util (rowheads ex_table) "Family"
           ex_datafile ex_taxmap).
  - exact build_taxmap_ex.
  - discriminate.
Defined.

(** ** What reading never undoes *)

Lemma get_lineage_root t n lineage :
  get_lineage t n = Some lineage → pair_of (root t) ∈ lineage.
Proof.
  unfold get_lineage. intros Hl.
  destruct (lineage_loop_inv _ _ _ _ _ Hl) as (chain & Hw & Hlen).
  rewrite (lineage_loop_walk _ _ _ Hw) in Hl by done.
  injection Hl as <-. cbn. apply elem_of_app. right. by left.
Qed.

Lemma load_row_wf unirefs target st row st' :
  load_row unirefs target st row = Ok st' →
  wf_tree (tol st) → wf_tree (tol st').
Proof.
  unfold load_row, list_getitem. intros Hl Hwf.
  destruct row as [|h row]; [done|]. cbn in Hl.
  case_bool_decide; [by simplify_eq|].
  case_bool_decide; [by simplify_eq|].
  destruct (tol_mode st).
  { destruct row as [|? [|? [|? ?]]]; simplify_eq. cbn.
    by apply wf_tree_attach. }
  destruct (lca_mode st); [|by simplify_eq].
  destruct row as [|lca [|? ?]]; try done.
  case_bool_decide; [|by simplify_eq].
  destruct (get_lineage (tol st) lca); [|done].
  destruct (assign_rank _ _ _ _); [|done]. cbn in Hl. by simplify_eq.
Qed.

Lemma load_row_keeps unirefs target st row st' k :
  load_row unirefs target st row = Ok st' →
  is_Some (ld_taxmap st !! k) → is_Some (ld_taxmap st' !! k).
Proof.
  intros Hl Hk.
  destruct (load_row_cases _ _ _ _ _ Hl)
    as [->|(u & lca & lineage & _ & _ & _ & _ & _ & Ha)]; [done|].
  by eapply assign_rank_keeps.
Qed.

Section keeps.
Context `{Util}.

Lemma augment_row_keeps target t (m m' : gmap string string) feature k :
  augment_row target t m feature = Ok m' →
  is_Some (m !! k) → is_Some (m' !! k).
Proof.
  unfold augment_row. rewrite fsplit_parts. intros Ha Hk.
  destruct (stratum_of feature) as [s|]; [|by simplify_eq].
  destruct (contains "g__" s); [|by simplify_eq].
  case_bool_decide.
  - simplify_eq. destruct (decide (s = k)) as [->|Hne].
    + rewrite lookup_insert_eq. eauto.
    + by rewrite lookup_insert_ne.
  - destruct (get_lineage _ _); [|done]. by eapply assign_rank_keeps.
Qed.

(** X9.  Building the map never takes an entry away: a key that has an
    entry at some point of the reading of the data file has one in the
    map that [build_taxmap] returns. *)
Theorem build_taxmap_keeps_entries (features : list string)
    (target_rank : string) (pre post : list (list string)) (st : loader)
    (taxmap : gmap string string) (k : string) :
  build_taxmap features target_rank (pre ++ post) = Ok taxmap →
  foldM (load_row (unirefs_of features) target_rank) loader_init pre = Ok st →
  is_Some (ld_taxmap st !! k) →
  is_Some (taxmap !! k).
Proof.
  unfold build_taxmap. fold loader_init. intros Hb Hpre Hk.
  rewrite foldM_app, Hpre in Hb. cbn [rbind] in Hb.
  destruct (foldM _ st post) as [st2|] eqn:Hpost; [cbn in Hb|done].
  assert (is_Some (ld_taxmap st2 !! k)) as Hk2.
  { apply (foldM_invariant (load_row (unirefs_of features) target_rank)
             (λ st', is_Some (ld_taxmap st' !! k)) post) with (acc := st);
      [|done..].
    intros st0 row st1 _ Hk0 Hrow. by eapply load_row_keeps. }
  apply (foldM_invariant (augment_row target_rank (tol st2))
           (λ m, is_Some (m !! k)) features) with (acc := ld_taxmap st2);
    [|done..].
  intros m feature m' _ Hm Ha. by eapply augment_row_keeps.
Qed.

(** X10.  With the target rank Root every LCA row whose id is one of the
    UniRef ids of the table leaves an entry for its id: the lineage always
    ends with the root pair, so there is always a pair at that rank. *)
Theorem build_taxmap_root_level (features : list string)
    (pre post : list (list string)) (st : loader) (uni lca : string)
    (taxmap : gmap string string) :
  build_taxmap features c_root (pre ++ [uni; lca] :: post) = Ok taxmap →
  foldM (load_row (unirefs_of features) c_root) loader_init pre = Ok st →
  reads_lca st → uni ∈ unirefs_of features →
  is_Some (taxmap !! uni).
Proof.
  unfold build_taxmap. fold loader_init. intros Hb Hpre Hr Hin.
  rewrite foldM_app, Hpre in Hb. cbn [rbind foldM] in Hb.
  rewrite (load_row_lca _ _ _ _ _ Hr Hin) in Hb.
  destruct (get_lineage (tol st) lca) as [lineage|] eqn:Hl; [|done].
  destruct (assign_rank _ _ _ _) as [m1|] eqn:Ea; [cbn [rbind] in Hb|done].
  destruct (foldM _ _ post) as [st2|] eqn:Hpost; [cbn in Hb|done].
  assert (wf_tree (tol st)) as Hwf.
  { apply (foldM_invariant (load_row (unirefs_of features) c_root)
             (λ st', wf_tree (tol st')) pre) with (acc := loader_init);
      [|apply wf_tree_init|done].
    intros st0 row st1 _ Hwf0 Hrow. by eapply load_row_wf. }
  assert (is_Some (m1 !! uni)) as Hk1.
  { apply assign_rank_spec in Ea.
    destruct (first_at_rank_elem c_root lineage c_root c_root) as [[rk nm] Ef];
      [|done|].
    - apply get_lineage_root in Hl. destruct Hwf as (Hroot & _).
      by rewrite Hroot in Hl.
    - rewrite Ef in Ea. destruct Ea as (_ & c & _ & ->).
      rewrite lookup_insert_eq. eauto. }
  assert (is_Some (ld_taxmap st2 !! uni)) as Hk2.
  { apply (foldM_invariant (load_row (unirefs_of features) c_root)
             (λ st', is_Some (ld_taxmap st' !! uni)) post) in Hpost;
      [done| |done].
    intros st0 row st1 _ Hk0 Hrow. by eapply load_row_keeps. }
  apply (foldM_invariant (augment_row c_root (tol st2))
           (λ m, is_Some (m !! uni)) features) with (acc := ld_taxmap st2);
    [|done..].
  intros m feature m' _ Hm Ha. by eapply augment_row_keeps.
Qed.
End keeps.

Lemma build_taxmap_keeps_entries_witness : is_Some (ex_taxmap !! "UniRef50_A").
Proof.
  apply (@build_taxmap_keeps_entries model_util (rowheads ex_table) "Family"
           (take 5 ex_datafile) (drop 5 ex_datafile)
           (mkLoader ex_tree ex_taxmap_lca false true) ex_taxmap).
  - exact build_taxmap_ex.
  - vm_compute. reflexivity.
  - vm_compute. eauto.
Defined.

Lemma build_taxmap_root_level_witness :
  is_Some (ex_taxmap_root !! "UniRef50_A").
Proof.
  apply (@build_taxmap_root_level model_util (rowheads ex_table)
           (take 4 ex_datafile) (drop 5 ex_datafile) ex_loader_lca
           "UniRef50_A" "Genus1" ex_taxmap_root).
  - vm_compute. reflexivity.
  - vm_compute. reflexivity.
  - split; reflexivity.
  - apply (bool_decide_unpack _). vm_compute. exact I.
Defined.

(** ** Refining the map, further *)

Section refine_more.
Context `{Numbers}.

(** X11.  Refinement returns a map that holds exactly the entries of the
    given map whose label is carried by at least the threshold's share of
    all entries, with their labels unchanged; so a label is kept on all of
    its keys or on none. *)
Theorem refine_keeps_frequent (taxmap : gmap string string)
    (threshold : float) :
  of_nat_zero →
  ∃ refined,
    refine_taxmap taxmap threshold = Ok refined ∧
    (∀ k lab, refined !! k = Some lab
              ↔ taxmap !! k = Some lab ∧
                fge (fdiv (of_nat (label_count taxmap lab))
                       (of_nat (size taxmap))) threshold = true) ∧
    (∀ k k' lab, taxmap !! k = Some lab → taxmap !! k' = Some lab →
       is_Some (refined !! k) → refined !! k' = Some lab).
Proof.
  intros Hz. eexists. split; [by apply refine_taxmap_spec|].
  assert (∀ k lab,
            filter (frequent taxmap threshold) taxmap !! k = Some lab
            ↔ taxmap !! k = Some lab ∧
              fge (fdiv (of_nat (label_count taxmap lab))
                     (of_nat (size taxmap))) threshold = true) as Hchar.
  { intros k lab. by rewrite map_lookup_filter_Some. }
  split; [done|]. intros k k' lab Hk Hk' [lab' Hr].
  apply Hchar in Hr as [Hk2 Hf]. rewrite Hk in Hk2. simplify_eq.
  by apply Hchar.
Qed.

(** X12.  A threshold that every share reaches leaves the map as it is,
    and a threshold that no share reaches empties it. *)
Theorem refine_threshold_extremes (taxmap : gmap string string)
    (threshold : float) :
  of_nat_zero →
  ((∀ c n, 0 < c → c ≤ n →
      fge (fdiv (of_nat c) (of_nat n)) threshold = true) →
   refine_taxmap taxmap threshold = Ok taxmap) ∧
  ((∀ c n, 0 < c → c ≤ n →
      fge (fdiv (of_nat c) (of_nat n)) threshold = false) →
   refine_taxmap taxmap threshold = Ok ∅).
Proof.
  intros Hz.
  assert (∀ k lab, taxmap !! k = Some lab →
            0 < label_count taxmap lab ∧ label_count taxmap lab ≤ size taxmap)
    as Hcount.
  { intros k lab Hk. split; [by eapply label_count_pos|].
    unfold label_count. rewrite <- length_map_to_list. apply length_filter. }
  rewrite refine_taxmap_spec by done. split; intros Hall; f_equal.
  - apply map_filter_id. intros k lab Hk.
    destruct (Hcount k lab Hk). by apply Hall.
  - apply map_eq. intros k. rewrite lookup_empty.
    apply map_lookup_filter_None. right. intros lab Hk Hf.
    destruct (Hcount k lab Hk) as [H1 H2].
    red in Hf. cbn in Hf. rewrite (Hall _ _ H1 H2) in Hf. done.
Qed.
End refine_more.

Lemma Q_share_range c n :
  0 < c → c ≤ n →
  (0 <= inject_Z (Z.of_nat c) / inject_Z (Z.of_nat n) <= 1)%Q.
Proof.
  intros Hc Hn.
  assert (0 < inject_Z (Z.of_nat n))%Q as Hn' by (unfold Qlt; cbn; lia).
  split.
  - apply Qle_shift_div_l; [done|]. rewrite Qmult_0_l.
    unfold Qle. cbn. lia.
  - apply Qle_shift_div_r; [done|]. rewrite Qmult_1_l.
    rewrite <- Zle_Qle. lia.
Qed.

Lemma refine_keeps_frequent_witness :
  ∃ refined,
    @refine_taxmap Q_numbers ex_labels (1 # 2)%Q = Ok refined ∧
    (∀ k lab, refined !! k = Some lab
              ↔ ex_labels !! k = Some lab ∧
                @fge Q_numbers
                  (@fdiv Q_numbers (@of_nat Q_numbers (label_count ex_labels lab))
                     (@of_nat Q_numbers (size ex_labels))) (1 # 2)%Q = true) ∧
    (∀ k k' lab, ex_labels !! k = Some lab → ex_labels !! k' = Some lab →
       is_Some (refined !! k) → refined !! k' = Some lab).
Proof.
  exact (@refine_keeps_frequent Q_numbers ex_labels (1 # 2)%Q Q_of_nat_zero).
Defined.

Lemma refine_threshold_extremes_witness :
  @refine_taxmap Q_numbers ex_labels 0%Q = Ok ex_labels ∧
  @refine_taxmap Q_numbers ex_labels 2%Q = Ok ∅.
Proof.
  split.
  - apply (proj1 (@refine_threshold_extremes Q_numbers ex_labels 0%Q
                    Q_of_nat_zero)).
    intros c n Hc Hn. cbn. apply Qle_bool_iff. rewrite Qred_correct.
    by destruct (Q_share_range c n Hc Hn).
  - apply (proj2 (@refine_threshold_extremes Q_numbers ex_labels 2%Q
                    Q_of_nat_zero)).
    intros c n Hc Hn. cbn.
    destruct (Qle_bool 2 _) eqn:E; [|done].
    apply Qle_bool_iff in E. rewrite Qred_correct in E.
    destruct (Q_share_range c n Hc Hn) as [_ Hle].
    pose proof (Qle_trans _ _ _ E Hle) as Hc2. by vm_compute in Hc2.
Defined.

(** ** The index, further *)

Lemma StronglySorted_replicate n (i : nat) : StronglySorted le (replicate n i).
Proof.
  induction n as [|n IH]; cbn; constructor; [done|].
  apply Forall_forall. intros j Hj. by apply elem_of_replicate in Hj as [-> _].
Qed.

Section index.
Context `{Util}.

Lemma sources_from_sorted mode taxmap k (rowheads : list string) :
  ∀ i, StronglySorted le (sources_from mode taxmap k i rowheads).
Proof.
  induction rowheads as [|rowhead rest IH]; intros i; cbn; [constructor|].
  apply StronglySorted_app_2; [|apply StronglySorted_replicate|apply IH].
  intros a b Ha Hb. apply elem_of_replicate in Ha as [-> _].
  apply elem_of_sources_from in Hb as (p & _ & -> & _). lia.
Qed.

(** The keys under which the index of a row is found are the targets of
    the row. *)
Lemma index_of_row mode taxmap rowheads i rowhead k :
  rowheads !! i = Some rowhead →
  (∃ idxs, reindex mode taxmap rowheads !! k = Some idxs ∧ i ∈ idxs)
  ↔ k ∈ targets mode taxmap rowhead.
Proof.
  intros Hi. split.
  - intros (idxs & Hk & Hin). rewrite reindex_lookup in Hk.
    case_decide; [done|]. simplify_eq.
    apply elem_of_sources in Hin as (rh & Hrh & Hin). by simplify_eq.
  - intros Hk. exists (sources mode taxmap rowheads k).
    assert (i ∈ sources mode taxmap rowheads k) as Hin
      by (apply elem_of_sources; eauto).
    split; [|done]. rewrite reindex_lookup. case_decide as E; [|done].
    rewrite E in Hin. by apply elem_of_nil in Hin.
Qed.

(** X13.  Every list of the index is non-empty, holds only indices of rows
    of the table, and holds them in ascending order. *)
Theorem reindex_lists (mode : string) (taxmap : gmap string string)
    (rowheads : list string) (k : string) (idxs : list nat) :
  reindex mode taxmap rowheads !! k = Some idxs →
  idxs ≠ [] ∧
  Forall (λ i, i < length rowheads) idxs ∧
  StronglySorted le idxs.
Proof.
  rewrite reindex_lookup. case_decide as E; [done|]. intros [= <-].
  split; [done|]. split; [|apply sources_from_sorted].
  apply Forall_forall. intros i Hi.
  apply elem_of_sources in Hi as (rh & Hrh & _). by eapply lookup_lt_Some.
Qed.

(** X14.  In totals mode a row with a stratum (whose feature is not the
    unmapped sentinel) is indexed under no key: it does not reach the
    output. *)
Theorem totals_leaves_out_stratified (taxmap : gmap string string)
    (rowheads : list string) (i : nat) (rowhead s : string) :
  rowheads !! i = Some rowhead →
  stratum_of rowhead = Some s → feature_of rowhead ≠ c_unmapped →
  ∀ k idxs, reindex c_tmode taxmap rowheads !! k = Some idxs → i ∉ idxs.
Proof.
  intros Hi Hs Hf k idxs Hk Hin.
  assert (k ∈ targets c_tmode taxmap rowhead) as Ht
    by (apply (index_of_row _ _ rowheads i); eauto).
  unfold targets in Ht. rewrite fsplit_parts, Hs in Ht.
  rewrite bool_decide_eq_false_2 in Ht by done.
  rewrite bool_decide_eq_false_2 in Ht by (by intros [? _]).
  rewrite bool_decide_eq_false_2 in Ht by (by intros [_ ?]).
  rewrite bool_decide_eq_false_2 in Ht by (by intros [_ ?]).
  by apply elem_of_nil in Ht.
Qed.

(** X15.  In unclassified mode a row whose stratum is not "unclassified"
    (no stratum, or another one; feature not the unmapped sentinel) is
    indexed under no key. *)
Theorem unclassified_leaves_out_others (taxmap : gmap string string)
    (rowheads : list string) (i : nat) (rowhead : string) :
  rowheads !! i = Some rowhead →
  stratum_of rowhead ≠ Some c_unclassified →
  feature_of rowhead ≠ c_unmapped →
  ∀ k idxs, reindex c_umode taxmap rowheads !! k = Some idxs → i ∉ idxs.
Proof.
  intros Hi Hs Hf k idxs Hk Hin.
  assert (k ∈ targets c_umode taxmap rowhead) as Ht
    by (apply (index_of_row _ _ rowheads i); eauto).
  unfold targets in Ht. rewrite fsplit_parts in Ht.
  rewrite bool_decide_eq_false_2 in Ht by done.
  rewrite bool_decide_eq_false_2 in Ht by (by intros [_ ?]).
  rewrite bool_decide_eq_false_2 in Ht by (by intros [? _]).
  rewrite bool_decide_eq_false_2 in Ht by (by intros [_ ?]).
  by apply elem_of_nil in Ht.
Qed.

(** X16.  In stratified mode a row (feature not the unmapped sentinel) is
    indexed under exactly one key: its own key when it has no stratum, the
    key that [tax_connect] gives when it has one. *)
Theorem stratified_one_key (taxmap : gmap string string)
    (rowheads : list string) (i : nat) (rowhead : string) :
  rowheads !! i = Some rowhead →
  feature_of rowhead ≠ c_unmapped →
  ∀ k, (∃ idxs, reindex c_smode taxmap rowheads !! k = Some idxs ∧ i ∈ idxs)
       ↔ k = match stratum_of rowhead with
             | None => rowhead
             | Some _ => tax_connect rowhead taxmap
             end.
Proof.
  intros Hi Hf k. rewrite (index_of_row _ _ _ _ _ _ Hi).
  unfold targets. rewrite fsplit_parts.
  rewrite bool_decide_eq_false_2 by done.
  destruct (stratum_of rowhead) as [s|].
  - rewrite bool_decide_eq_false_2 by (by intros [? _]).
    rewrite bool_decide_eq_false_2 by (by intros [_ ?]).
    rewrite bool_decide_eq_true_2 by done.
    cbn. by rewrite list_elem_of_singleton.
  - rewrite bool_decide_eq_true_2 by done.
    rewrite bool_decide_eq_false_2 by done.
    cbn. by rewrite list_elem_of_singleton.
Qed.
End index.

Lemma reindex_lists_witness :
  [1] ≠ [] ∧ Forall (λ i, i < length (rowheads ex_table)) [1] ∧
  StronglySorted le [1].
Proof.
  apply (@reindex_lists model_util c_tmode ex_taxmap (rowheads ex_table)
           "UniRef50_A|f__FamilyX").
  vm_compute. reflexivity.
Defined.

Lemma totals_leaves_out_stratified_witness :
  rowheads ex_table !! 2 = Some "UniRef50_A|g__Genus1.s__Species1" ∧
  ∀ k idxs,
    @reindex model_util c_tmode ex_taxmap (rowheads ex_table) !! k
    = Some idxs → 2 ∉ idxs.
Proof.
  split; [reflexivity|].
  apply (@totals_leaves_out_stratified model_util ex_taxmap
           (rowheads ex_table) 2 "UniRef50_A|g__Genus1.s__Species1"
           "g__Genus1.s__Species1").
  - reflexivity.
  - vm_compute. reflexivity.
  - vm_compute. discriminate.
Defined.

Lemma unclassified_leaves_out_others_witness :
  rowheads ex_table_unclassified !! 1 = Some "UniRef50_B" ∧
  ∀ k idxs,
    @reindex model_util c_umode ex_taxmap_B (rowheads ex_table_unclassified)
      !! k = Some idxs → 1 ∉ idxs.
Proof.
  split; [reflexivity|].
  apply (@unclassified_leaves_out_others model_util ex_taxmap_B
           (rowheads ex_table_unclassified) 1 "UniRef50_B").
  - reflexivity.
  - vm_compute. discriminate.
  - vm_compute. discriminate.
Defined.

Lemma stratified_one_key_witness :
  rowheads ex_table !! 2 = Some "UniRef50_A|g__Genus1.s__Species1" ∧
  ∀ k, (∃ idxs, @reindex model_util c_smode ex_taxmap (rowheads ex_table) !! k
                = Some idxs ∧ 2 ∈ idxs)
       ↔ k = match @stratum_of model_util "UniRef50_A|g__Genus1.s__Species1"
             with
             | None => "UniRef50_A|g__Genus1.s__Species1"
             | Some _ => @tax_connect model_util
                           "UniRef50_A|g__Genus1.s__Species1" ex_taxmap
             end.
Proof.
  split; [reflexivity|].
  apply (@stratified_one_key model_util ex_taxmap (rowheads ex_table) 2
           "UniRef50_A|g__Genus1.s__Species1").
  - reflexivity.
  - vm_compute. discriminate.
Defined.

(** ** The rebuilt table, further *)

Lemma mapM_length {A B} (f : A → result B) (l : list A) :
  ∀ ys, mapM f l = Ok ys → length ys = length l.
Proof.
  induction l as [|x l IH]; intros ys; cbn; [by intros [= <-]|].
  destruct (f x); [cbn|done]. destruct (mapM f l) as [ys'|]; [cbn|done].
  intros [= <-]. cbn. f_equal. by apply IH.
Qed.



Section rebuild_more.
Context `{Util} `{Numbers}.

Let add_row (tbl : Table cell) (newrow : list float) (i : nat)
  : result (list float) :=
  oldrow ←! list_getitem (data tbl) i;
  Ok (zip_with fadd newrow (to_float <$> oldrow)).



Lemma add_rows_length (tbl : Table cell) (idxs : list nat) :
  ∀ newrow v, foldM (add_row tbl) newrow idxs = Ok v →
    length v ≤ length newrow ∧
    (∀ i row, i ∈ idxs → data tbl !! i = Some row → length v ≤ length row) ∧
    ((∀ i row, i ∈ idxs → data tbl !! i = Some row →
        length newrow ≤ length row) → length v = length newrow).
Proof.
  induction idxs as [|j idxs IH]; intros newrow v; cbn.
  { intros [= <-]. split; [done|]. split; [|done].
    by intros i row ?%elem_of_nil. }
  unfold add_row at 1, list_getitem.
  destruct (data tbl !! j) as [rowj|] eqn:Ej; cbn; [|done].
  intros Hf. destruct (IH _ _ Hf) as (H1 & H2 & H3).
  rewrite length_zip_with, length_fmap in H1, H3.
  split; [lia|]. split.
  - intros i row Hi Hrow. apply elem_of_cons in Hi as [->|Hi]; [|eauto].
    simplify_eq. lia.
  - intros Hall. pose proof (Hall j rowj (list_elem_of_here _ _) Ej).
    rewrite H3; [lia|].
    intros i row Hi Hrow. pose proof (Hall i row (list_elem_of_further _ _ _ Hi) Hrow).
    lia.
Qed.



Lemma rebuild_sums (tbl : Table cell) (index : gmap string (list nat))
    (tbl2 : Table float) :
  rebuild tbl index = Ok tbl2 →
  length (data tbl2) = length (rowheads tbl2) ∧
  colheads tbl2 = colheads tbl ∧
  ∀ v, v ∈ data tbl2 → ∃ idxs, sum_rows tbl idxs = Ok v.
Proof.
  unfold rebuild. destruct (mapM _ _) as [data2|] eqn:Em; [cbn|done].
  intros [= <-]. cbn. split; [by eapply mapM_length|]. split; [done|].
  intros v Hv. apply list_elem_of_lookup in Hv as [p Hp].
  destruct (mapM_lookup_inv _ _ _ Em _ _ Hp) as (k & _ & Hf).
  unfold getitem in Hf. destruct (index !! k) as [idxs|]; [|done]. eauto.
Qed.

Lemma rebuild_rectangular (tbl : Table cell)
    (index : gmap string (list nat)) (tbl2 : Table float) :
  rebuild tbl index = Ok tbl2 → rectangular tbl → rectangular tbl2.
Proof.
  intros Hreb [Hrows Hcells].
  destruct (rebuild_sums _ _ _ Hreb) as (Hlen & Hcol & Hsum).
  split; [done|]. apply Forall_forall. intros v Hv.
  destruct (Hsum v Hv) as [idxs Hs].
  destruct (add_rows_length _ _ _ _ Hs) as (_ & _ & Heq).
  rewrite length_fmap in Heq. rewrite Hcol. apply Heq. intros i row _ Hrow.
  rewrite Forall_forall in Hcells.
  rewrite (Hcells row); [done|]. by eapply list_elem_of_lookup_2.
Qed.

(** X19.  No row of the rebuilt table is longer than the column heads: a
    source row with fewer cells cuts the sum short instead of raising.
    Rebuilding a table that has one cell per column in every row gives
    such a table again. *)
Theorem rebuild_row_lengths (tbl : Table cell)
    (index : gmap string (list nat)) (tbl2 : Table float) :
  rebuild tbl index = Ok tbl2 →
  Forall (λ row, length row ≤ length (colheads tbl2)) (data tbl2) ∧
  (rectangular tbl → rectangular tbl2).
Proof.
  intros Hreb. split; [|exact (rebuild_rectangular _ _ _ Hreb)].
  destruct (rebuild_sums _ _ _ Hreb) as (_ & Hcol & Hsum).
  apply Forall_forall. intros v Hv. destruct (Hsum v Hv) as [idxs Hs].
  destruct (add_rows_length _ _ _ _ Hs) as (Hlen & _).
  rewrite length_fmap in Hlen. by rewrite Hcol.
Qed.
End rebuild_more.




(** The table that lacks a data row, as computed. *)
Example rebuild_index_error_ex :
  @rebuild model_util Q_numbers ex_table_short
    (@reindex model_util c_smode ∅ (rowheads ex_table_short))
  = Raise IndexError.
Proof. vm_compute. reflexivity. Qed.

Lemma rebuild_ragged_ex :
  @rebuild model_util Q_numbers ex_table_ragged
    (@reindex model_util c_smode ∅ (rowheads ex_table_ragged))
  = Ok (mkTable ["UniRef50_A"; "UniRef50_B"] ["sample1"; "sample2"]
          [[1%Q; 2%Q]; [3%Q]]).
Proof. vm_compute. reflexivity. Qed.

Lemma rebuild_row_lengths_witness :
  Forall (λ row : list Q, length row ≤ length ["sample1"; "sample2"])
    [[1%Q; 2%Q]; [3%Q]] ∧
  (rectangular ex_table_ragged →
   rectangular (mkTable ["UniRef50_A"; "UniRef50_B"] ["sample1"; "sample2"]
                  [[1%Q; 2%Q]; [3%Q]])).
Proof.
  exact (@rebuild_row_lengths model_util Q_numbers ex_table_ragged _ _
           rebuild_ragged_ex).
Defined.

(** ** The summary and the run as a whole *)

Lemma length_filter_le {A} (P Q : A → Prop) `{!∀ x, Decision (P x)}
    `{!∀ x, Decision (Q x)} (l : list A) :
  (∀ x, P x → Q x) → length (filter P l) ≤ length (filter Q l).
Proof.
  intros HPQ. induction l as [|x l IH]; [done|].
  rewrite !filter_cons.
  destruct (decide (P x)) as [HP|HP], (decide (Q x)) as [HQ|HQ]; cbn;
    try lia.
  destruct HQ. by apply HPQ.
Qed.

Section summary_more.
Context `{Util} `{Numbers}.

(** X20.  A summary that is returned counts at least one stratification,
    and not more mapped ones than stratifications. *)
Theorem report_counts (rowheads : list string) (level : string)
    (s : Summary) :
  of_nat_zero → report rowheads level = Ok s →
  0 < TOTAL s ∧ SUCCESS s ≤ TOTAL s ∧ TARGET s = level.
Proof.
  intros Hz. unfold report. rewrite tally_spec. unfold truediv.
  destruct (fis_zero (of_nat (length (stratified_rows rowheads)))) eqn:E;
    [done|].
  cbn. intros [= <-]. cbn. split; [|split; [|done]].
  - destruct (length (stratified_rows rowheads)) eqn:El; [|lia].
    assert (fis_zero (of_nat 0) = true) as E0 by by apply Hz. congruence.
  - apply length_filter_le. by intros k [? _].
Qed.

End summary_more.

Lemma report_counts_witness :
  0 < @TOTAL Q_numbers (mkSummary Q_numbers 2 1 "Family" 50%Q) ∧
  @SUCCESS Q_numbers (mkSummary Q_numbers 2 1 "Family" 50%Q)
  ≤ @TOTAL Q_numbers (mkSummary Q_numbers 2 1 "Family" 50%Q) ∧
  @TARGET Q_numbers (mkSummary Q_numbers 2 1 "Family" 50%Q) = "Family".
Proof.
  apply (@report_counts model_util Q_numbers ex_rowheads2 "Family").
  - exact Q_of_nat_zero.
  - vm_compute. reflexivity.
Defined.


(** ** Reconnecting, further *)

Section reconnect_more.
Context `{Util}.

(** X22.  A row whose stratum is "unclassified" is rewritten to the same
    key as the un-stratified key of its feature and name; and when the map
    has no entry for the feature, a canonical such row is rewritten to
    itself. *)
Theorem tax_connect_unclassified (k : string) (taxmap : gmap string string) :
  fsplit_fjoin → stratum_of k = Some c_unclassified →
  tax_connect k taxmap
  = tax_connect (fjoin (feature_of k) (name_of k) None) taxmap ∧
  (canonical k → taxmap !! feature_of k = None → tax_connect k taxmap = k).
Proof.
  intros Hlaw Hs. destruct (Hlaw k None) as (Hf & Hn & Hst).
  rewrite !tax_connect_eq, Hs, Hf, Hn.
  rewrite (proj2 Hst eq_refl). rewrite bool_decide_eq_true_2 by done.
  split; [done|]. intros Hcan ->. cbn. by rewrite <- Hs.
Qed.
End reconnect_more.

Lemma tax_connect_unclassified_witness :
  @tax_connect model_util "UniRef50_B|unclassified" ex_taxmap
  = @tax_connect model_util
      (@fjoin model_util (@feature_of model_util "UniRef50_B|unclassified")
         (@name_of model_util "UniRef50_B|unclassified") None) ex_taxmap ∧
  (@canonical model_util "UniRef50_B|unclassified" →
   ex_taxmap !! @feature_of model_util "UniRef50_B|unclassified" = None →
   @tax_connect model_util "UniRef50_B|unclassified" ex_taxmap
   = "UniRef50_B|unclassified").
Proof.
  apply (@tax_connect_unclassified model_util).
  - exact model_fsplit_fjoin.
  - vm_compute. reflexivity.
Defined.

(** ** Rows kept as they are *)

Section kept.
Context `{Util} `{Numbers}.



End kept.



(** ** From the data file to the rewritten key *)

Section genus_level.
Context `{Util} `{Numbers}.

(** X25.  At the rank Genus, with the map built and then refined: the key
    of a row whose stratum contains "g__" is rewritten to its feature and
    name with the genus token of the stratum when that token is frequent
    enough to pass the refinement, and with "unclassified" when it is
    not. *)
Theorem genus_row_rewritten (features : list string)
    (datafile : list (list string)) (taxmap refined : gmap string string)
    (threshold : float) (feature s : string) :
  of_nat_zero →
  build_taxmap features "Genus" datafile = Ok taxmap →
  refine_taxmap taxmap threshold = Ok refined →
  feature ∈ features → stratum_of feature = Some s →
  contains "g__" s = true →
  tax_connect feature refined
  = fjoin (feature_of feature) (name_of feature)
      (Some (if fge (fdiv (of_nat (label_count taxmap
                                     (split_head c_taxon_delim s)))
                       (of_nat (size taxmap))) threshold
             then split_head c_taxon_delim s else c_unclassified)).
Proof.
  intros Hz Hb Hr Hin Hs Hg.
  assert (taxmap !! s = Some (split_head c_taxon_delim s)) as Hm.
  { unfold build_taxmap in Hb.
    destruct (foldM _ _ datafile) as [st|]; [cbn in Hb|done].
    eapply augment_genus; [done|]. left. by exists feature. }
  rewrite refine_taxmap_spec in Hr by done. injection Hr as <-.
  rewrite tax_connect_eq, Hs.
  rewrite bool_decide_eq_false_2 by (intros ->; done).
  do 2 f_equal. rewrite map_lookup_filter, Hm. cbn.
  destruct (fge _ _) eqn:Ef.
  - by rewrite option_guard_True.
  - rewrite option_guard_False; [done|].
    intros Hc. red in Hc. cbn in Hc. congruence.
Qed.
End genus_level.

Lemma genus_row_rewritten_witness :
  @tax_connect model_util "UniRef50_A|g__Genus1.s__Species1" ex_taxmap_genus
  = @fjoin model_util
      (@feature_of model_util "UniRef50_A|g__Genus1.s__Species1")
      (@name_of model_util "UniRef50_A|g__Genus1.s__Species1")
      (Some (if @fge Q_numbers
                  (@fdiv Q_numbers
                     (@of_nat Q_numbers
                        (label_count ex_taxmap_genus
                           (split_head (@c_taxon_delim model_util)
                              "g__Genus1.s__Species1")))
                     (@of_nat Q_numbers (size ex_taxmap_genus)))
                  (1 # 1000)%Q
             then split_head (@c_taxon_delim model_util)
                    "g__Genus1.s__Species1"
             else c_unclassified)).
Proof.
  apply (@genus_row_rewritten model_util Q_numbers (rowheads ex_table)
           ex_datafile ex_taxmap_genus ex_taxmap_genus (1 # 1000)%Q
           "UniRef50_A|g__Genus1.s__Species1" "g__Genus1.s__Species1").
  - exact Q_of_nat_zero.
  - exact build_taxmap_genus_ex.
  - vm_compute. reflexivity.
  - cbn. right. right. left.
  - vm_compute. reflexivity.
  - vm_compute. reflexivity.
Defined.
